(** * The adaptive render-scale controller of model-viewer's [Renderer]

    Shallow embedding of
    [packages/model-viewer/src/three-components/Renderer.ts]: the frame
    timer, the smoothed frame-duration estimator, the scale-step selector
    and the canvas resizer, together with the canvas selection and the
    drawing loop as far as they touch the renderer's own fields.

    JavaScript numbers are modelled as exact rationals ([Q]); the rounding
    of IEEE doubles is not part of that model.  Numeric equality of the
    source ([===] on numbers) is [Qeq_bool], and statements about numeric
    fields use [==].  Where a statement depends on the rounding, the
    arithmetic of the estimator is given a second time on binary64 numbers
    ([Double]). *)

From Stdlib Require Import QArith Qminmax Qround Qabs Lqa ZArith Lia List Bool.
From Stdlib Require String DecimalString.
From Stdlib Require Floats.
Import ListNotations.
Import String.StringSyntax.
Open Scope Q_scope.

(** ** Numbers *)

(** [x < y] on JavaScript numbers. *)
Definition Qlt_bool (x y : Q) : bool := negb (Qle_bool y x).

(** [Math.round]: the nearest integer, halves rounded up. *)
Definition Math_round (x : Q) : Z := Qfloor (x + (1 # 2)).

(** Modelled from the spec: [clamp] is imported from [../utilities.js],
    which is not among the sources; section 4.2 of the specification uses
    it as [clamp(raw, -MAX_CHANGE, MAX_CHANGE)], the value cut to the
    closed interval between the two limits. *)
Definition clamp (value lowerLimit upperLimit : Q) : Q :=
  Qmax lowerLimit (Qmin upperLimit value).

(** ** Constants of [Renderer.ts] *)

Definition DURATION_DECAY : Q := 0.2.
Definition LOW_FRAME_DURATION_MS : Q := 18.
Definition HIGH_FRAME_DURATION_MS : Q := 26.
Definition MAX_AVG_CHANGE_MS : Q := 2.
Definition SCALE_STEPS : list Q := [1; 0.79; 0.62; 0.5; 0.4; 0.31; 0.25].
Definition DEFAULT_LAST_STEP : Z := 3.

(** ** Canvases and scenes *)

(** A CSS length written by a template string [`${v}px`]: the empty initial
    value, a number of pixels, or ["NaNpx"] when [v] came out of a division
    by an undefined scale factor. *)
Inductive css : Type :=
| css_empty
| css_px (v : Q)
| css_NaN.

Definition px (v : option Q) : css :=
  match v with
  | Some q => css_px q
  | None => css_NaN
  end.

(** A scene's 2D canvas: backing-store size, CSS size, the [show] class and
    the identity of its parent element. *)
Record Canvas : Type := mkCanvas {
  cv_width : Z;
  cv_height : Z;
  style_width : css;
  style_height : css;
  cv_show : bool;
  parentElement : nat
}.

(** The renderer's WebGL canvas.  Its backing store is the drawing buffer
    of the three.js renderer; the fields hold the size last requested
    through [threeRenderer.setSize(w, h, false)] at pixel ratio 1. *)
Record Canvas3D : Type := mkCanvas3D {
  buffer_width : Q;
  buffer_height : Q;
  c3d_style_width : css;
  c3d_style_height : css;
  c3d_show : bool;
  c3d_parentElement : option nat
}.

(** A [ModelScene] as the renderer sees it.  [sceneId] stands for the
    identity of the JavaScript object; [canvas] is the element's 2D canvas,
    which the renderer reaches both as [scene.canvas] and as
    [scene.element[$canvas]]; [modelIsVisible] and [loaded] are read from
    [scene.element]; [externalRenderer] and [hasContext] record whether the
    corresponding members are non-null. *)
Record ModelScene : Type := mkScene {
  sceneId : nat;
  scene_width : Q;
  scene_height : Q;
  canvas : Canvas;
  isDirty : bool;
  modelIsVisible : bool;
  loaded : bool;
  externalRenderer : bool;
  renderCount : Z;
  hasContext : bool
}.

Definition set_canvas (c : Canvas) (s : ModelScene) : ModelScene :=
  mkScene (sceneId s) (scene_width s) (scene_height s) c (isDirty s)
    (modelIsVisible s) (loaded s) (externalRenderer s) (renderCount s)
    (hasContext s).

Definition set_isDirty (b : bool) (s : ModelScene) : ModelScene :=
  mkScene (sceneId s) (scene_width s) (scene_height s) (canvas s) b
    (modelIsVisible s) (loaded s) (externalRenderer s) (renderCount s)
    (hasContext s).

Definition set_scene_size (w h : Q) (s : ModelScene) : ModelScene :=
  mkScene (sceneId s) w h (canvas s) (isDirty s)
    (modelIsVisible s) (loaded s) (externalRenderer s) (renderCount s)
    (hasContext s).

Definition set_renderCount (n : Z) (s : ModelScene) : ModelScene :=
  mkScene (sceneId s) (scene_width s) (scene_height s) (canvas s) (isDirty s)
    (modelIsVisible s) (loaded s) (externalRenderer s) n (hasContext s).

Definition set_hasContext (b : bool) (s : ModelScene) : ModelScene :=
  mkScene (sceneId s) (scene_width s) (scene_height s) (canvas s) (isDirty s)
    (modelIsVisible s) (loaded s) (externalRenderer s) (renderCount s) b.

Definition set_cv_size (w h : Z) (c : Canvas) : Canvas :=
  mkCanvas w h (style_width c) (style_height c) (cv_show c) (parentElement c).

Definition set_cv_style (w h : css) (c : Canvas) : Canvas :=
  mkCanvas (cv_width c) (cv_height c) w h (cv_show c) (parentElement c).

Definition set_cv_show (b : bool) (c : Canvas) : Canvas :=
  mkCanvas (cv_width c) (cv_height c) (style_width c) (style_height c) b
    (parentElement c).

(** The scene of a given identity in the registry, and the mutation of
    that one object. *)
Definition lookupScene (id : nat) (l : list ModelScene) : option ModelScene :=
  find (fun s => Nat.eqb (sceneId s) id) l.

Definition updateScene (id : nat) (f : ModelScene -> ModelScene)
    (l : list ModelScene) : list ModelScene :=
  map (fun s => if Nat.eqb (sceneId s) id then f s else s) l.

(** ** The collaborators outside this file

    The AR renderer ([ARRenderer.ts]) and the element hooks [$tick] and
    [$updateSize] belong to other modules.  The renderer only calls them;
    a [Host] fixes what they do to the state modelled here. *)
Class Host : Type := mkHost {
  ARRenderer : Type;
  XRFrame : Type;
  (** [arRenderer.onWebXRFrame(t, frame)] *)
  onWebXRFrame : Q -> XRFrame -> ARRenderer -> ARRenderer;
  (** [arRenderer.isPresenting] *)
  ar_isPresenting : ARRenderer -> bool;
  (** whether [element[$tick](t, delta)] marks its scene dirty *)
  elementTick : Q -> Q -> ModelScene -> bool;
  (** the scene size after [element[$updateSize](getBoundingClientRect())]
      at the given device pixel ratio *)
  elementUpdateSize : Q -> ModelScene -> Q * Q
}.

Section Renderer.

Context {host : Host}.

(** ** The renderer's state *)

(** The fields of the [Renderer] class that the paths below read or write.
    [canRender] is [threeRenderer != null]. *)
Record Renderer : Type := mkRenderer {
  canRender : bool;
  canvas3D : Canvas3D;
  arRenderer : ARRenderer;
  width : Q;
  height : Q;
  dpr : Q;
  scenes : list ModelScene;
  multipleScenesVisible : bool;
  lastTick : Q;
  scaleStep : Z;
  lastStep : Z;
  avgFrameDuration : Q
}.

Definition set_canRender (b : bool) (r : Renderer) : Renderer :=
  mkRenderer b (canvas3D r) (arRenderer r) (width r) (height r) (dpr r)
    (scenes r) (multipleScenesVisible r) (lastTick r) (scaleStep r)
    (lastStep r) (avgFrameDuration r).

Definition set_canvas3D (c : Canvas3D) (r : Renderer) : Renderer :=
  mkRenderer (canRender r) c (arRenderer r) (width r) (height r) (dpr r)
    (scenes r) (multipleScenesVisible r) (lastTick r) (scaleStep r)
    (lastStep r) (avgFrameDuration r).

Definition set_arRenderer (a : ARRenderer) (r : Renderer) : Renderer :=
  mkRenderer (canRender r) (canvas3D r) a (width r) (height r) (dpr r)
    (scenes r) (multipleScenesVisible r) (lastTick r) (scaleStep r)
    (lastStep r) (avgFrameDuration r).

Definition set_size (w h d : Q) (r : Renderer) : Renderer :=
  mkRenderer (canRender r) (canvas3D r) (arRenderer r) w h d
    (scenes r) (multipleScenesVisible r) (lastTick r) (scaleStep r)
    (lastStep r) (avgFrameDuration r).

Definition set_scenes (l : list ModelScene) (r : Renderer) : Renderer :=
  mkRenderer (canRender r) (canvas3D r) (arRenderer r) (width r) (height r)
    (dpr r) l (multipleScenesVisible r) (lastTick r) (scaleStep r)
    (lastStep r) (avgFrameDuration r).

Definition set_multipleScenesVisible (b : bool) (r : Renderer) : Renderer :=
  mkRenderer (canRender r) (canvas3D r) (arRenderer r) (width r) (height r)
    (dpr r) (scenes r) b (lastTick r) (scaleStep r)
    (lastStep r) (avgFrameDuration r).

Definition set_lastTick (t : Q) (r : Renderer) : Renderer :=
  mkRenderer (canRender r) (canvas3D r) (arRenderer r) (width r) (height r)
    (dpr r) (scenes r) (multipleScenesVisible r) t (scaleStep r)
    (lastStep r) (avgFrameDuration r).

Definition set_scaleStep (n : Z) (r : Renderer) : Renderer :=
  mkRenderer (canRender r) (canvas3D r) (arRenderer r) (width r) (height r)
    (dpr r) (scenes r) (multipleScenesVisible r) (lastTick r) n
    (lastStep r) (avgFrameDuration r).

Definition set_lastStep (n : Z) (r : Renderer) : Renderer :=
  mkRenderer (canRender r) (canvas3D r) (arRenderer r) (width r) (height r)
    (dpr r) (scenes r) (multipleScenesVisible r) (lastTick r) (scaleStep r)
    n (avgFrameDuration r).

Definition set_avgFrameDuration (a : Q) (r : Renderer) : Renderer :=
  mkRenderer (canRender r) (canvas3D r) (arRenderer r) (width r) (height r)
    (dpr r) (scenes r) (multipleScenesVisible r) (lastTick r) (scaleStep r)
    (lastStep r) a.

Definition set_c3d_style (w h : css) (c : Canvas3D) : Canvas3D :=
  mkCanvas3D (buffer_width c) (buffer_height c) w h (c3d_show c)
    (c3d_parentElement c).

Definition set_c3d_show (b : bool) (c : Canvas3D) : Canvas3D :=
  mkCanvas3D (buffer_width c) (buffer_height c) (c3d_style_width c)
    (c3d_style_height c) b (c3d_parentElement c).

Definition set_c3d_parentElement (p : option nat) (c : Canvas3D) : Canvas3D :=
  mkCanvas3D (buffer_width c) (buffer_height c) (c3d_style_width c)
    (c3d_style_height c) (c3d_show c) p.

(** [threeRenderer.setSize(w, h, false)]: resizes the drawing buffer and
    leaves the style alone. *)
Definition setSize (w h : Q) (c : Canvas3D) : Canvas3D :=
  mkCanvas3D w h (c3d_style_width c) (c3d_style_height c) (c3d_show c)
    (c3d_parentElement c).

(** [get isPresenting] *)
Definition isPresenting (r : Renderer) : bool :=
  ar_isPresenting (arRenderer r).

(** [get scaleFactor]: [SCALE_STEPS[this.scaleStep]], undefined outside the
    table. *)
Definition scaleFactor (r : Renderer) : option Q :=
  if (scaleStep r <? 0)%Z then None
  else nth_error SCALE_STEPS (Z.to_nat (scaleStep r)).

(** [x / scale], which is [NaN] for an undefined scale. *)
Definition div_scale (x : Q) (scale : option Q) : option Q :=
  match scale with
  | Some s => Some (x / s)
  | None => None
  end.

(** ** [set minScale] *)

(** The [while] loop of the setter; [rest] is [SCALE_STEPS] from index [i]
    on, so the loop condition [i < SCALE_STEPS.length] fails exactly when
    [rest] is empty. *)
Fixpoint minScale_loop (rest : list Q) (i : Z) (scale : Q) : Z :=
  match rest with
  | [] => i
  | s :: rest' =>
      if Qlt_bool s scale then i
      else minScale_loop rest' (i + 1)%Z scale
  end.

Definition set_minScale (scale : Q) (r : Renderer) : Renderer :=
  let i := minScale_loop (skipn 1 SCALE_STEPS) 1%Z scale in
  set_lastStep (i - 1)%Z r.

(** ** The constructor *)

Definition midpoint : Q :=
  (HIGH_FRAME_DURATION_MS + LOW_FRAME_DURATION_MS) / 2.

(** The largest scene: the two [Math.max] folds over [this.scenes]. *)
Definition maxWidth (l : list ModelScene) : Q :=
  fold_left (fun w s => Qmax w (scene_width s)) l 0.

Definition maxHeight (l : list ModelScene) : Q :=
  fold_left (fun h s => Qmax h (scene_height s)) l 0.

(** [updateRendererSize]; [dprNow] is what [resolveDpr()] returns. *)
Definition updateRendererSize (dprNow : Q) (r : Renderer) : Renderer :=
  let r1 :=
    if negb (Qeq_bool dprNow (dpr r)) then
      set_scenes
        (map (fun s => let '(w, h) := elementUpdateSize dprNow s in
                       set_scene_size w h s) (scenes r)) r
    else r in
  let w := maxWidth (scenes r1) in
  let h := maxHeight (scenes r1) in
  if Qeq_bool w (width r1) && Qeq_bool h (height r1)
     && Qeq_bool dprNow (dpr r1)
  then r1
  else
    let r2 := set_size w h dprNow r1 in
    let r3 :=
      if canRender r2 then
        set_canvas3D (setSize (w * dprNow) (h * dprNow) (canvas3D r2)) r2
      else r2 in
    let scale := scaleFactor r3 in
    let widthCSS := div_scale w scale in
    let heightCSS := div_scale h scale in
    let r4 :=
      set_canvas3D (set_c3d_style (px widthCSS) (px heightCSS) (canvas3D r3))
        r3 in
    set_scenes
      (map (fun s =>
              set_isDirty true
                (set_canvas
                   (set_cv_style (px widthCSS) (px heightCSS)
                      (set_cv_size (Math_round (w * dprNow))
                         (Math_round (h * dprNow)) (canvas s))) s))
         (scenes r4)) r4.

(** The state after the field initialisers of the class have run. *)
Definition initialFields (ar : ARRenderer) : Renderer :=
  mkRenderer false (mkCanvas3D 300 150 css_empty css_empty false None) ar
    0 0 1 [] false 0 0%Z DEFAULT_LAST_STEP midpoint.

(** [constructor]: [dprNow] is [resolveDpr()], [webgl] tells whether
    [new WebGLRenderer] succeeded, [ar] is the new [ARRenderer] and [now]
    is [performance.now()]. *)
Definition constructor (dprNow : Q) (webgl : bool) (ar : ARRenderer)
    (now : Q) : Renderer :=
  let r0 := initialFields ar in
  let r1 := set_size (width r0) (height r0) dprNow r0 in
  let r2 := set_canRender webgl r1 in
  let r3 := updateRendererSize dprNow r2 in
  let r4 := set_lastTick now r3 in
  set_avgFrameDuration 0 r4.

(** ** [updateRendererScale] *)

Definition updateRendererScale (r : Renderer) : Renderer :=
  let scaleStep0 := scaleStep r in
  let r1 :=
    if Qlt_bool HIGH_FRAME_DURATION_MS (avgFrameDuration r)
       && (scaleStep r <? lastStep r)%Z
    then set_scaleStep (scaleStep r + 1)%Z r
    else if Qlt_bool (avgFrameDuration r) LOW_FRAME_DURATION_MS
            && (0 <? scaleStep r)%Z
    then set_scaleStep (scaleStep r - 1)%Z r
    else r in
  if (scaleStep0 =? scaleStep r1)%Z then r1
  else
    let scale := scaleFactor r1 in
    let r2 := set_avgFrameDuration midpoint r1 in
    let w := div_scale (width r2) scale in
    let h := div_scale (height r2) scale in
    let r3 := set_canvas3D (set_c3d_style (px w) (px h) (canvas3D r2)) r2 in
    set_scenes
      (map (fun s =>
              set_isDirty true
                (set_canvas (set_cv_style (px w) (px h) (canvas s)) s))
         (scenes r3)) r3.

(** ** Registering scenes *)

(** [registerScene].  [this.scenes] is a [Set]: adding an object that is
    already a member leaves the membership alone, and the writes that
    follow go to that one object. *)
Definition registerScene (scene : ModelScene) (r : Renderer) : Renderer :=
  let l :=
    match lookupScene (sceneId scene) (scenes r) with
    | Some _ => scenes r
    | None => scenes r ++ [scene]
    end in
  let scale := scaleFactor r in
  set_scenes
    (updateScene (sceneId scene)
       (fun s =>
          let c1 := set_cv_size (Math_round (width r * dpr r))
                      (Math_round (height r * dpr r)) (canvas s) in
          let c2 := set_cv_style (px (div_scale (width r) scale))
                      (px (div_scale (height r) scale)) c1 in
          let c3 := if multipleScenesVisible r then set_cv_show true c2
                    else c2 in
          set_isDirty true (set_canvas c3 s))
       l) r.

(** [unregisterScene] *)
Definition unregisterScene (scene : ModelScene) (r : Renderer) : Renderer :=
  set_scenes
    (filter (fun s => negb (Nat.eqb (sceneId s) (sceneId scene))) (scenes r))
    r.

(** ** [selectCanvas] *)

(** The scenes counted by the first loop of [selectCanvas]. *)
Definition visibleScenesOf (l : list ModelScene) : list ModelScene :=
  filter (fun s => modelIsVisible s && negb (externalRenderer s)) l.

Definition selectCanvas (r : Renderer) : Renderer :=
  let visible := visibleScenesOf (scenes r) in
  match last (map Some visible) None with
  | None => r
  | Some visibleScene =>
      let multiple := (1 <? length visible)%nat in
      if Bool.eqb multiple (multipleScenesVisible r)
         && (multiple
             || match c3d_parentElement (canvas3D r) with
                | Some p => Nat.eqb p (parentElement (canvas visibleScene))
                | None => false
                end)
      then r
      else
        let r1 := set_multipleScenesVisible multiple r in
        let r2 :=
          if multiple then set_canvas3D (set_c3d_show false (canvas3D r1)) r1
          else r1 in
        fold_left
          (fun acc s =>
             if externalRenderer s then acc
             else if multiple then
               set_scenes
                 (updateScene (sceneId s)
                    (fun s' =>
                       set_isDirty true
                         (set_canvas (set_cv_show true (canvas s')) s'))
                    (scenes acc)) acc
             else if Nat.eqb (sceneId s) (sceneId visibleScene) then
               let acc1 :=
                 set_canvas3D
                   (set_c3d_show true
                      (set_c3d_parentElement (Some (parentElement (canvas s)))
                         (canvas3D acc))) acc in
               set_scenes
                 (updateScene (sceneId s)
                    (fun s' =>
                       set_isDirty true
                         (set_canvas (set_cv_show false (canvas s')) s'))
                    (scenes acc1)) acc1
             else acc)
          (scenes r2) r2
  end.

(** ** The drawing loop of [render] *)

(** [orderedScenes]: references to the registered scenes, the non-visible
    ones first. *)
Definition orderedScenes (r : Renderer) : list nat :=
  map sceneId (filter (fun s => negb (modelIsVisible s)) (scenes r))
  ++ map sceneId (filter modelIsVisible (scenes r)).

(** [preRender]: the element's [$tick] hook; the tone mapping and shadow
    map settings of three.js are not part of the state. *)
Definition preRender (id : nat) (t delta : Q) (r : Renderer) : Renderer :=
  set_scenes
    (updateScene id
       (fun s => if elementTick t delta s then set_isDirty true s else s)
       (scenes r)) r.

(** One iteration of the loop over [orderedScenes()].  The calls into
    three.js, the external renderer and the 2D context draw pixels and
    leave the fields of the model alone. *)
Definition drawScene (t delta : Q) (r : Renderer) (id : nat) : Renderer :=
  match lookupScene id (scenes r) with
  | None => r
  | Some scene =>
      if negb (modelIsVisible scene) && (0 <? renderCount scene)%Z then r
      else
        let r1 := preRender id t delta r in
        match lookupScene id (scenes r1) with
        | None => r1
        | Some scene1 =>
            if negb (isDirty scene1) then r1
            else if externalRenderer scene1 then r1
            else
              let r2 :=
                if negb (modelIsVisible scene1)
                   && negb (multipleScenesVisible r1)
                then
                  set_scenes
                    (map (fun s => if modelIsVisible s then set_isDirty true s
                                   else s) (scenes r1)) r1
                else r1 in
              set_scenes
                (updateScene id
                   (fun s =>
                      let s1 :=
                        if multipleScenesVisible r2 && negb (hasContext s)
                        then set_hasContext true s else s in
                      let s2 := set_isDirty false s1 in
                      if loaded s2
                      then set_renderCount (renderCount s2 + 1)%Z s2
                      else s2)
                   (scenes r2)) r2
        end
  end.

(** ** [render] *)

(** The statement that updates the smoothed frame duration. *)
Definition updateAvgFrameDuration (delta : Q) (r : Renderer) : Renderer :=
  set_avgFrameDuration
    (avgFrameDuration r
     + clamp (DURATION_DECAY * (delta - avgFrameDuration r))
         (- MAX_AVG_CHANGE_MS) MAX_AVG_CHANGE_MS) r.

(** What [render] does once the two early returns are behind it. *)
Definition renderFrame (dprNow t delta : Q) (r : Renderer) : Renderer :=
  let r1 := updateAvgFrameDuration delta r in
  let r2 := selectCanvas r1 in
  let r3 := updateRendererSize dprNow r2 in
  let r4 := updateRendererScale r3 in
  fold_left (drawScene t delta) (orderedScenes r4) r4.

(** [render(t, frame)]; [dprNow] is what [resolveDpr()] returns during the
    call. *)
Definition render (dprNow t : Q) (frame : option XRFrame) (r : Renderer)
    : Renderer :=
  match frame with
  | Some f => set_arRenderer (onWebXRFrame t f (arRenderer r)) r
  | None =>
      let delta := t - lastTick r in
      let r1 := set_lastTick t r in
      if negb (canRender r1) || isPresenting r1 then r1
      else renderFrame dprNow t delta r1
  end.

(** One callback of the host's animation loop. *)
Record Tick : Type := mkTick {
  tick_dpr : Q;
  tick_time : Q;
  tick_frame : option XRFrame
}.

Definition renderTick (r : Renderer) (k : Tick) : Renderer :=
  render (tick_dpr k) (tick_time k) (tick_frame k) r.

(** A run of the animation loop. *)
Definition run (ticks : list Tick) (r : Renderer) : Renderer :=
  fold_left renderTick ticks r.

(** The frame durations that a run computes: one per callback without an
    XR frame. *)
Fixpoint deltas (ticks : list Tick) (r : Renderer) : list Q :=
  match ticks with
  | [] => []
  | k :: ticks' =>
      match tick_frame k with
      | Some _ => deltas ticks' (renderTick r k)
      | None => (tick_time k - lastTick r) :: deltas ticks' (renderTick r k)
      end
  end.

(** ** [dispose] *)

(** [dispose]: the three.js renderer is dropped, so [canRender] becomes
    false; the scenes stay registered and their elements are returned
    (an element is named by the identity of its scene). *)
Definition dispose (r : Renderer) : list nat * Renderer :=
  (map sceneId (scenes r), set_canRender false r).

(** ** The public operations *)

(** What the rest of the page can do to a renderer: register and unregister
    scenes, set the minimum scale, dispose, and let the animation loop call
    [render]. *)
Inductive Operation : Type :=
| op_registerScene (scene : ModelScene)
| op_unregisterScene (scene : ModelScene)
| op_minScale (scale : Q)
| op_dispose
| op_render (k : Tick).

Definition perform (r : Renderer) (o : Operation) : Renderer :=
  match o with
  | op_registerScene scene => registerScene scene r
  | op_unregisterScene scene => unregisterScene scene r
  | op_minScale scale => set_minScale scale r
  | op_dispose => snd (dispose r)
  | op_render k => renderTick r k
  end.

(** The four sizes of a scene's canvas, and the sizes the renderer writes
    into every scene's canvas: backing store [round(size * dpr)], CSS size
    [size / scaleFactor]. *)
Definition canvasSize (s : ModelScene) : Z * Z * css * css :=
  (cv_width (canvas s), cv_height (canvas s),
   style_width (canvas s), style_height (canvas s)).

Definition rendererSize (r : Renderer) : Z * Z * css * css :=
  (Math_round (width r * dpr r), Math_round (height r * dpr r),
   px (div_scale (width r) (scaleFactor r)),
   px (div_scale (height r) (scaleFactor r))).

(** The state that the comment in [updateRendererSize] asks for: "each
    scene's canvas must match the renderer size". *)
Definition canvasesMatch (r : Renderer) : Prop :=
  Forall (fun s => canvasSize s = rendererSize r) (scenes r).

(** The state of the WebGL canvas's backing store: as long as there is a
    WebGL renderer, either no size has been recorded yet, or the backing
    store is the recorded size times the recorded pixel ratio, as
    [updateRendererSize] asked [threeRenderer.setSize] for. *)
Definition bufferMatches (r : Renderer) : Prop :=
  canRender r = true ->
  (width r == 0 /\ height r == 0)
  \/ (buffer_width (canvas3D r) == width r * dpr r
      /\ buffer_height (canvas3D r) == height r * dpr r).

(** What [bufferMatches] reads. *)
Definition backingStore (r : Renderer) : bool * Q * Q * Q * Q * Q :=
  (canRender r, width r, height r, dpr r,
   buffer_width (canvas3D r), buffer_height (canvas3D r)).

(** What the canvas selection and the drawing loop leave alone: the sizes
    the renderer asks for and the sizes of every scene's canvas. *)
Definition sizes (r : Renderer)
    : Z * Z * css * css * list (Z * Z * css * css) :=
  (rendererSize r, map canvasSize (scenes r)).

(** What the drawing loop never writes in a scene: its identity, whether
    its model is visible and whether it has an external renderer. *)
Definition sceneKind (s : ModelScene) : nat * bool * bool :=
  (sceneId s, modelIsVisible s, externalRenderer s).

(** The scenes named in [done] that are visible and drawn by three.js are
    not dirty. *)
Definition drawn (done : list nat) (l : list ModelScene) : Prop :=
  Forall
    (fun s => In (sceneId s) done -> modelIsVisible s = true ->
              externalRenderer s = false -> isDirty s = false) l.

(** The element's [$tick] hook, as [preRender] applies it. *)
Definition tickScene (t delta : Q) (s : ModelScene) : ModelScene :=
  if elementTick t delta s then set_isDirty true s else s.

(** The end of an iteration that draws: context, dirty flag, counter. *)
Definition finishScene (multiple : bool) (s : ModelScene) : ModelScene :=
  let s1 := if multiple && negb (hasContext s)
            then set_hasContext true s else s in
  let s2 := set_isDirty false s1 in
  if loaded s2 then set_renderCount (renderCount s2 + 1)%Z s2 else s2.

(** ** Views of the state *)

(** The part of the state owned by the adaptive-scale controller, the
    frame timer and the two guards of [render]. *)
Definition controller (r : Renderer) : Q * Z * Z * Q * bool * ARRenderer :=
  (avgFrameDuration r, scaleStep r, lastStep r, lastTick r, canRender r,
   arRenderer r).

(** The timer and the two guards. *)
Definition controller_tail (r : Renderer) : Q * bool * ARRenderer :=
  (lastTick r, canRender r, arRenderer r).

End Renderer.

(** ** The estimator in double precision

    The numbers of the source are IEEE binary64.  The statement that
    updates the smoothed frame duration ([render], lines 943 to 946) is
    repeated here on the kernel's binary64 numbers, whose operations round
    to nearest, ties to even, as those of JavaScript do. *)

Module Double.

Import Floats.
Local Open Scope float_scope.

(** [Math.min] and [Math.max]: not a number when an argument is not a
    number, and [-0] is smaller than [+0]. *)
Definition Math_min (x y : float) : float :=
  match compare y x with
  | FLt => y
  | FGt => x
  | FEq => if get_sign x then x else y
  | FNotComparable => nan
  end.

Definition Math_max (x y : float) : float :=
  match compare x y with
  | FLt => y
  | FGt => x
  | FEq => if get_sign x then y else x
  | FNotComparable => nan
  end.

(** Modelled from the spec: [clamp] is imported from [../utilities.js],
    which is not among the sources; section 4.2 of the specification uses
    it as [clamp(raw, -MAX_CHANGE, MAX_CHANGE)], the value cut to the
    closed interval between the two limits, written here with [Math.max]
    and [Math.min]. *)
Definition clamp (value lowerLimit upperLimit : float) : float :=
  Math_max lowerLimit (Math_min upperLimit value).

#[warnings="-inexact-float"] Definition DURATION_DECAY : float := 0.2.
Definition MAX_AVG_CHANGE_MS : float := 2.

(** [this.avgFrameDuration += clamp(DURATION_DECAY * (delta -
    this.avgFrameDuration), -MAX_AVG_CHANGE_MS, MAX_AVG_CHANGE_MS)]. *)
Definition updateAvgFrameDuration (delta avg : float) : float :=
  avg + clamp (DURATION_DECAY * (delta - avg))
          (- MAX_AVG_CHANGE_MS) MAX_AVG_CHANGE_MS.


End Double.

(** ** A host without AR, whose elements never change on their own *)

Definition idleHost : Host :=
  mkHost unit unit (fun _ _ a => a) (fun _ => false) (fun _ _ _ => false)
    (fun _ s => (scene_width s, scene_height s)).

(** ** A page at device pixel ratio 2 with two viewers *)

Definition webglCanvas : Canvas3D :=
  mkCanvas3D 300 150 css_empty css_empty false None.

(** A renderer in the steady state: average at the midpoint, step 0. *)
Definition steadyRenderer : @Renderer idleHost :=
  @mkRenderer idleHost true webglCanvas tt 0 0 1 [] false 0 0%Z
    DEFAULT_LAST_STEP 22.

(** A renderer whose average is above the upper threshold. *)
Definition slowRenderer : @Renderer idleHost :=
  @mkRenderer idleHost true webglCanvas tt 0 0 1 [] false 0 0%Z
    DEFAULT_LAST_STEP 30.

(** A renderer straight out of the constructor at time 0. *)
Definition freshRenderer : @Renderer idleHost :=
  @constructor idleHost 2 true tt 0.

Definition surfaceA : ModelScene :=
  mkScene 1 800 600 (mkCanvas 300 150 css_empty css_empty false 1)
    false true true false 0 false.

Definition surfaceB : ModelScene :=
  mkScene 2 400 300 (mkCanvas 300 150 css_empty css_empty false 2)
    false true true false 0 false.

Definition twoSurfaces : @Renderer idleHost :=
  registerScene surfaceB (registerScene surfaceA freshRenderer).

Definition registeredA : ModelScene := hd surfaceA (scenes twoSurfaces).

Definition registeredB : ModelScene :=
  hd surfaceB (tl (scenes twoSurfaces)).

(** A callback without an XR frame at time [t]. *)
Definition frameAt (t : Q) : @Tick idleHost := @mkTick idleHost 1 t None.

(** The page after both viewers are registered and one frame is drawn. *)
Definition pageOperations : list (@Operation idleHost) :=
  [op_registerScene surfaceA; op_registerScene surfaceB;
   op_render (@mkTick idleHost 2 16 None)].

Definition renderedPage : @Renderer idleHost :=
  fold_left perform pageOperations (@constructor idleHost 2 true tt 0).

Definition renderedA : ModelScene := hd surfaceA (scenes renderedPage).

Definition renderedB : ModelScene := hd surfaceB (tl (scenes renderedPage)).

(** * The glTF validation report

    Shallow embedding of [setReport] and [groupMessages], which turn the
    output of the glTF validator into the report that the editor shows. *)

Module Validation.

Local Open Scope string_scope.

Definition string : Set := String.string.

(** The names that every object literal inherits from
    [Object.prototype]. *)
Definition prototypeKeys : list string :=
  ["constructor"; "hasOwnProperty"; "isPrototypeOf"; "propertyIsEnumerable";
   "toLocaleString"; "toString"; "valueOf"; "__proto__";
   "__defineGetter__"; "__defineSetter__"; "__lookupGetter__";
   "__lookupSetter__"].

(** A key that reads as [undefined] unless the object has it as a property
    of its own. *)
Definition ownKey (key : string) : bool :=
  negb (existsb (String.eqb key) prototypeKeys).

(** JavaScript objects used as maps from strings: the keys in insertion
    order.  [lookup] reads own properties only, so it is [o[key]] for the
    keys that satisfy [ownKey]; for a name in [prototypeKeys] the source
    reads the inherited member instead.  [Object.keys] returns the keys in
    this order as long as none of them is an array index. *)
Definition lookup {V : Type} (key : string) (o : list (string * V))
    : option V :=
  match find (fun kv => String.eqb (fst kv) key) o with
  | Some kv => Some (snd kv)
  | None => None
  end.

(** [o[key] = v]: an existing key keeps its place, a new one goes last. *)
Fixpoint assign {V : Type} (key : string) (v : V) (o : list (string * V))
    : list (string * V) :=
  match o with
  | [] => [(key, v)]
  | (k, w) :: o' =>
      if String.eqb k key then (k, v) :: o' else (k, w) :: assign key v o'
  end.

(** [String.prototype.replace] with a string pattern: the first occurrence
    only. *)
Definition replace (pattern replacement s : string) : string :=
  match String.index 0 pattern s with
  | Some i =>
      String.append (String.substring 0 i s)
        (String.append replacement
           (String.substring (i + String.length pattern)
              (String.length s - (i + String.length pattern)) s))
  | None => s
  end.

(** A count converted to a string. *)
Definition decimal (n : nat) : string :=
  DecimalString.NilZero.string_of_uint (Nat.to_uint n).

Definition SEVERITY_MAP : list string :=
  ["Errors"; "Warnings"; "Infos"; "Hints"].

(** A message of the validator; the aggregated messages that
    [groupMessages] appends have no severity. *)
Record Message : Type := mkMessage {
  code : string;
  message : string;
  pointer : string;
  severity : option Z
}.

(** [report.issues] as the validator returns it; a count may be missing. *)
Record Issues : Type := mkIssues {
  numErrors : option Z;
  numWarnings : option Z;
  numInfos : option Z;
  numHints : option Z;
  messages : list Message
}.

(** The report after [setReport]. *)
Record Report : Type := mkReport {
  issues : Issues;
  maxSeverity : Z;
  errors : list Message;
  warnings : list Message;
  infos : list Message;
  hints : list Message
}.

(** [report.issues[key]] for the keys that [setReport] builds. *)
Definition issueCount (i : Issues) (key : string) : option Z :=
  if String.eqb key "numErrors" then numErrors i
  else if String.eqb key "numWarnings" then numWarnings i
  else if String.eqb key "numInfos" then numInfos i
  else if String.eqb key "numHints" then numHints i
  else None.

(** [n > 0], false for [undefined]. *)
Definition positive (n : option Z) : bool :=
  match n with
  | Some z => (0 <? z)%Z
  | None => false
  end.

(** The pairs that [forEach((value, index) => ...)] visits. *)
Definition indexed {A : Type} (l : list A) : list (A * Z) :=
  combine l (map Z.of_nat (seq 0 (length l))).

(** The first loop of [setReport]. *)
Definition maxSeverityOf (i : Issues) : Z :=
  fold_left
    (fun maxSev (entry : string * Z) =>
       let (sev, index) := entry in
       if positive (issueCount i (String.append "num" sev))
          && (maxSev =? -1)%Z
       then index else maxSev)
    (indexed SEVERITY_MAP) (-1)%Z.

(** [msg.severity === n] *)
Definition hasSeverity (n : Z) (m : Message) : bool :=
  match severity m with
  | Some z => (z =? n)%Z
  | None => false
  end.

(** An entry of the [CODES] table of [groupMessages]. *)
Record CodeEntry : Type := mkCodeEntry {
  template : string;
  pointerCounts : list (string * nat)
}.

Definition CODES : list (string * CodeEntry) :=
  [("ACCESSOR_NON_UNIT",
    mkCodeEntry
      "{count} accessor elements not of unit length: 0. [AGGREGATED]" []);
   ("ACCESSOR_ANIMATION_INPUT_NON_INCREASING",
    mkCodeEntry
      "{count} animation input accessor elements not in ascending order. [AGGREGATED]"
      [])].

(** Whether a count is truthy: present and not 0. *)
Definition truthy (n : option nat) : bool :=
  match n with
  | Some (S _) => true
  | _ => false
  end.

(** [if (!counts[p]) counts[p] = 0; counts[p]++] *)
Definition countPointer (p : string) (counts : list (string * nat))
    : list (string * nat) :=
  let counts1 := if negb (truthy (lookup p counts)) then assign p 0%nat counts
                 else counts in
  match lookup p counts1 with
  | Some n => assign p (S n) counts1
  | None => counts1
  end.

(** The body of the first [forEach] of [groupMessages]. *)
Definition countError (codes : list (string * CodeEntry)) (m : Message)
    : list (string * CodeEntry) :=
  match lookup (code m) codes with
  | None => codes
  | Some entry =>
      assign (code m)
        (mkCodeEntry (template entry)
           (countPointer (pointer m) (pointerCounts entry))) codes
  end.

(** The predicate of the [filter] of [groupMessages]. *)
Definition keepError (codes : list (string * CodeEntry)) (m : Message)
    : bool :=
  match lookup (code m) codes with
  | None => true
  | Some entry =>
      if negb (truthy (lookup (pointer m) (pointerCounts entry))) then true
      else
        match lookup (pointer m) (pointerCounts entry) with
        | Some n => (n <? 2)%nat
        | None => true
        end
  end.

(** The messages pushed by the last loop of [groupMessages]. *)
Definition aggregates (codes : list (string * CodeEntry)) : list Message :=
  flat_map
    (fun ce : string * CodeEntry =>
       map (fun pn : string * nat =>
              mkMessage (fst ce)
                (replace "{count}" (decimal (snd pn)) (template (snd ce)))
                (fst pn) None)
         (pointerCounts (snd ce)))
    codes.

(** [groupMessages], on [report.errors]. *)
Definition groupMessages (errs : list Message) : list Message :=
  let codes := fold_left countError errs CODES in
  filter (keepError codes) errs ++ aggregates codes.

(** [setReport] *)
Definition setReport (i : Issues) : Report :=
  mkReport i (maxSeverityOf i)
    (groupMessages (filter (hasSeverity 0) (messages i)))
    (filter (hasSeverity 1) (messages i))
    (filter (hasSeverity 2) (messages i))
    (filter (hasSeverity 3) (messages i)).

(** ** External resources *)

(** The character ['/']. *)
Definition slash : Ascii.ascii :=
  match "/" with
  | String.String a _ => a
  | String.EmptyString => Ascii.zero
  end.

(** [s.lastIndexOf(c)] for a one-character pattern; [None] stands for
    -1. *)
Fixpoint lastIndexOf (c : Ascii.ascii) (s : string) : option nat :=
  match s with
  | String.EmptyString => None
  | String.String a s' =>
      match lastIndexOf c s' with
      | Some i => Some (S i)
      | None => if Ascii.eqb a c then Some 0%nat else None
      end
  end.

(** The address that [resolveExternalResource(uri, url)] fetches. *)
Definition resourceAddress (uri url : string) : string :=
  let index := lastIndexOf slash url in
  let baseURL :=
    match index with
    | None => "./"
    | Some i => String.substring 0 (i + 1) url
    end in
  String.append baseURL uri.

(** Whether [groupMessages] aggregates a code: whether [CODES[c]] is
    defined. *)
Definition aggregated (c : string) : bool :=
  match lookup c CODES with
  | Some _ => true
  | None => false
  end.

(** The pointer counts that the first loop of [groupMessages] builds for
    one code. *)
Definition tally (c : string) (errs : list Message) (start : list (string * nat))
    : list (string * nat) :=
  fold_left
    (fun counts m =>
       if String.eqb (code m) c then countPointer (pointer m) counts
       else counts)
    errs start.

(** A count read as a number, 0 when the key is missing. *)
Definition countOf (p : string) (counts : list (string * nat)) : nat :=
  match lookup p counts with
  | Some n => n
  | None => 0%nat
  end.

(** The messages with a given code and pointer. *)
Definition about (c p : string) (m : Message) : bool :=
  String.eqb (code m) c && String.eqb (pointer m) p.

(** A validator run with three unit-length errors on one accessor, one on
    another, an unrelated error and a warning. *)
Definition sampleIssues : Issues :=
  mkIssues (Some 5%Z) (Some 1%Z) (Some 0%Z) None
    [mkMessage "ACCESSOR_NON_UNIT" "not unit" "/accessors/1" (Some 0%Z);
     mkMessage "BUFFER_VIEW_TOO_LONG" "too long" "/bufferViews/0" (Some 0%Z);
     mkMessage "ACCESSOR_NON_UNIT" "not unit" "/accessors/1" (Some 0%Z);
     mkMessage "UNUSED_OBJECT" "unused" "/materials/2" (Some 1%Z);
     mkMessage "ACCESSOR_NON_UNIT" "not unit" "/accessors/4" (Some 0%Z);
     mkMessage "ACCESSOR_NON_UNIT" "not unit" "/accessors/1" (Some 0%Z)].

End Validation.

(** * Pointer positions, the scene graph and the mobile section *)

(** ** Pointer positions ([Renderer.ts])

    The camera belongs to three.js: [Vector3.project(camera)] and
    [Vector3.unproject(camera)] are operations of a [Projection]. *)

Record Vector3 : Type := mkVector3 { vx : Q; vy : Q; vz : Q }.

Class Projection : Type := mkProjection {
  Camera : Type;
  (** [scene.getCamera()] *)
  getCamera : ModelScene -> Camera;
  (** [vector.project(camera)] *)
  project : Camera -> Vector3 -> Vector3;
  (** [vector.unproject(camera)] *)
  unproject : Camera -> Vector3 -> Vector3
}.



Section Pointer.

Context {host : Host} {projection : Projection}.





End Pointer.

(** ** The scene graph ([Renderer.getChildren]) *)

Module SceneGraph.

Local Open Scope string_scope.

(** An [Object3D] with its children. *)
#[warnings="-register-all"] Inductive Object3D : Type :=
| object3D (name : String.string) (children : list Object3D).

Definition children (o : Object3D) : list Object3D :=
  match o with
  | object3D _ cs => cs
  end.




(** A scene whose model root holds two meshes three levels down. *)
Definition sampleScene : Object3D :=
  object3D "scene"
    [object3D "target"
       [object3D "model"
          [object3D "root"
             [object3D "mesh-a" []; object3D "mesh-b" []]]]].

End SceneGraph.

(** ** The mobile section of the editor ([mobile_expandable_section.ts]) *)

Module MobileSection.

Local Open Scope string_scope.

(** The properties of the element that its templates read; an unset
    property is falsy. *)
Record Properties : Type := mkProperties {
  isDeployed : bool;
  isDeployable : bool;
  haveReceivedResponse : bool;
  isSendingData : bool;
  contentHasChanged : bool
}.

(** A message of [optionalMessage]: the colour and the text of the
    [div]. *)
Record Notice : Type := mkNotice {
  colour : String.string;
  text : String.string
}.

(** [get optionalMessage]; [None] is the empty template. *)
Definition optionalMessage (p : Properties) : option Notice :=
  let isOutOfSync :=
    haveReceivedResponse p
    && (negb (isSendingData p) && contentHasChanged p) in
  if isOutOfSync then
    Some (mkNotice "#DC143C"
            "Your mobile view is out of sync with the editor.")
  else if isSendingData p then
    Some (mkNotice "white"
            "Sending data to mobile device. Textured models will take some time.")
  else if negb (haveReceivedResponse p) then
    Some (mkNotice "white"
            "Use the QR Code to open the mobile viewing page on a mobile device.")
  else None.

(** What [renderMobileInfo] makes depend on the properties: the theme
    colour and the [disabled] attribute of the "Refresh Mobile" button,
    and the message below it. *)
Record MobileInfo : Type := mkMobileInfo {
  refreshColour : String.string;
  refreshDisabled : bool;
  notice : option Notice
}.

Definition renderMobileInfo (p : Properties) : MobileInfo :=
  let isOutOfSync :=
    haveReceivedResponse p
    && (negb (isSendingData p) && contentHasChanged p) in
  let outOfSyncColor := if isOutOfSync then "#DC143C" else "#4285F4" in
  mkMobileInfo outOfSyncColor
    (negb (haveReceivedResponse p) || isSendingData p)
    (optionalMessage p).

(** [render]: the "Deploy Mobile" button with its [disabled] attribute, or
    the mobile info; the AR settings follow in both cases. *)
Record View : Type := mkView {
  deployButton : option bool;
  mobileInfo : option MobileInfo
}.

Definition render (p : Properties) : View :=
  mkView
    (if negb (isDeployed p) then Some (negb (isDeployable p)) else None)
    (if isDeployed p then Some (renderMobileInfo p) else None).

End MobileSection.

(** * Properties *)

(** ** Comparisons *)

Lemma Qlt_bool_iff (x y : Q) : Qlt_bool x y = true <-> x < y.
Proof.
  unfold Qlt_bool. rewrite negb_true_iff.
  destruct (Qle_bool y x) eqn:E.
  - apply Qle_bool_iff in E. split; [discriminate | intro; lra].
  - split; [intros _ | reflexivity].
    apply Qnot_le_lt. intro H. apply Qle_bool_iff in H. congruence.
Qed.

Lemma Qlt_bool_false_iff (x y : Q) : Qlt_bool x y = false <-> y <= x.
Proof.
  destruct (Qlt_bool x y) eqn:E.
  - apply Qlt_bool_iff in E. split; [discriminate | intro; lra].
  - split; [intros _ | reflexivity].
    apply Qnot_lt_le. intro H. apply Qlt_bool_iff in H. congruence.
Qed.

(** ** Comparisons of binary64 numbers *)

Section DoubleFacts.

Import Floats.






End DoubleFacts.

Section Properties.

Context {host : Host}.

(** The branches of [updateRendererScale]: the two threshold tests, then
    the comparison of the step with its value at entry. *)
Ltac selector_cases r :=
  unfold updateRendererScale;
  destruct (Qlt_bool HIGH_FRAME_DURATION_MS (avgFrameDuration r)
            && (scaleStep r <? lastStep r)%Z);
    [|destruct (Qlt_bool (avgFrameDuration r) LOW_FRAME_DURATION_MS
                && (0 <? scaleStep r)%Z)];
    cbn [set_scaleStep scaleStep];
    match goal with
    | |- context [(?a =? ?b)%Z] => destruct (a =? b)%Z
    end; reflexivity.

(** ** What each phase of a frame leaves alone *)

Lemma controller_eq (r r' : Renderer) :
  controller r = controller r' ->
  avgFrameDuration r = avgFrameDuration r'
  /\ scaleStep r = scaleStep r'
  /\ lastStep r = lastStep r'
  /\ lastTick r = lastTick r'
  /\ canRender r = canRender r'
  /\ arRenderer r = arRenderer r'.
Proof. unfold controller. intros [= -> -> -> -> -> ->]. repeat split. Qed.

Lemma controller_fold {A : Type} (f : Renderer -> A -> Renderer)
    (l : list A) :
  (forall r a, controller (f r a) = controller r) ->
  forall r, controller (fold_left f l r) = controller r.
Proof.
  intros Hf. induction l as [|a l IH]; intros r; simpl.
  - reflexivity.
  - rewrite IH. apply Hf.
Qed.

Lemma controller_selectCanvas (r : Renderer) :
  controller (selectCanvas r) = controller r.
Proof.
  unfold selectCanvas.
  destruct (last (map Some (visibleScenesOf (scenes r))) None) as [v|];
    [|reflexivity].
  match goal with |- context [if ?c then r else _] => destruct c end;
    [reflexivity|].
  rewrite controller_fold.
  - destruct (1 <? length (visibleScenesOf (scenes r)))%nat; reflexivity.
  - intros acc s. destruct (externalRenderer s); [reflexivity|].
    destruct (1 <? length (visibleScenesOf (scenes r)))%nat; [reflexivity|].
    destruct (Nat.eqb (sceneId s) (sceneId v)); reflexivity.
Qed.

Lemma controller_updateRendererSize (dprNow : Q) (r : Renderer) :
  controller (updateRendererSize dprNow r) = controller r.
Proof.
  unfold updateRendererSize.
  destruct (negb (Qeq_bool dprNow (dpr r)));
    match goal with |- context [if ?c then _ else _] => destruct c end;
    try reflexivity;
    cbn [canRender set_size set_scenes]; 
    match goal with |- context [if ?c then _ else _] => destruct c end;
    reflexivity.
Qed.

Lemma controller_drawScene (t delta : Q) (r : Renderer) (id : nat) :
  controller (drawScene t delta r id) = controller r.
Proof.
  unfold drawScene.
  destruct (lookupScene id (scenes r)) as [s|]; [|reflexivity].
  destruct (negb (modelIsVisible s) && (0 <? renderCount s)%Z);
    [reflexivity|].
  destruct (lookupScene id (scenes (preRender id t delta r))) as [s1|];
    [|reflexivity].
  destruct (negb (isDirty s1)); [reflexivity|].
  destruct (externalRenderer s1); [reflexivity|].
  destruct (negb (modelIsVisible s1)
            && negb (multipleScenesVisible (preRender id t delta r)));
    reflexivity.
Qed.

Lemma controller_drawLoop (t delta : Q) (ids : list nat) (r : Renderer) :
  controller (fold_left (drawScene t delta) ids r) = controller r.
Proof. apply controller_fold. intros; apply controller_drawScene. Qed.

(** The selector reads and writes the controller's fields only. *)
Lemma controller_updateRendererScale (r r' : Renderer) :
  controller r = controller r' ->
  controller (updateRendererScale r) = controller (updateRendererScale r').
Proof.
  intros H. apply controller_eq in H as (Ha & Hs & Hl & Ht & Hc & Har).
  unfold updateRendererScale. rewrite <- Ha, <- Hs, <- Hl.
  destruct (Qlt_bool HIGH_FRAME_DURATION_MS (avgFrameDuration r)
            && (scaleStep r <? lastStep r)%Z);
    [|destruct (Qlt_bool (avgFrameDuration r) LOW_FRAME_DURATION_MS
                && (0 <? scaleStep r)%Z)];
    cbn [set_scaleStep scaleStep]; rewrite <- ?Hs;
    match goal with
    | |- context [(?a =? ?b)%Z] => destruct (a =? b)%Z
    end; unfold controller; cbn; congruence.
Qed.

(** The controller's fields after a whole frame are those after the
    estimator and the selector: the other phases do not touch them. *)
Lemma controller_renderFrame (dprNow t delta : Q) (r : Renderer) :
  controller (renderFrame dprNow t delta r)
  = controller (updateRendererScale (updateAvgFrameDuration delta r)).
Proof.
  unfold renderFrame. rewrite controller_drawLoop.
  apply controller_updateRendererScale.
  now rewrite controller_updateRendererSize, controller_selectCanvas.
Qed.

(** ** The estimator *)

Lemma clamp_cases (v lo hi : Q) :
  lo <= hi ->
  (v < lo /\ clamp v lo hi == lo)
  \/ (lo <= v <= hi /\ clamp v lo hi == v)
  \/ (hi < v /\ clamp v lo hi == hi).
Proof.
  intros Hlh. unfold clamp.
  destruct (Q.min_spec hi v) as [[H1 E1] | [H1 E1]];
    destruct (Q.max_spec lo (Qmin hi v)) as [[H2 E2] | [H2 E2]];
    rewrite E2, ?E1 in *.
  - right; right. split; [assumption | reflexivity].
  - right; right. split; [assumption | lra].
  - right; left. split; [lra | reflexivity].
  - destruct (Qeq_dec v lo) as [E | N].
    + right; left. split; [lra | lra].
    + left. split; [|reflexivity].
      apply Qle_lteq in H2 as [H2 | H2]; [assumption | lra].
Qed.

(** One update of the average moves it by at most [MAX_AVG_CHANGE_MS] and
    never past the sample. *)
Lemma estimator_step (avg delta : Q) :
  let avg' :=
    avg + clamp (DURATION_DECAY * (delta - avg))
            (- MAX_AVG_CHANGE_MS) MAX_AVG_CHANGE_MS in
  (avg - 2 <= avg' <= avg + 2)
  /\ (avg <= delta -> avg <= avg' <= delta)
  /\ (delta <= avg -> delta <= avg' <= avg).
Proof.
  cbv zeta.
  unfold DURATION_DECAY, MAX_AVG_CHANGE_MS.
  destruct (clamp_cases (0.2 * (delta - avg)) (- (2)) 2) as
    [[H E] | [[H E] | [H E]]]; [lra | | |]; rewrite E;
    repeat split; intros; lra.
Qed.

(** ** The selector *)

Lemma scaleStep_updateRendererScale (r : Renderer) :
  scaleStep (updateRendererScale r)
  = if Qlt_bool HIGH_FRAME_DURATION_MS (avgFrameDuration r)
       && (scaleStep r <? lastStep r)%Z
    then (scaleStep r + 1)%Z
    else if Qlt_bool (avgFrameDuration r) LOW_FRAME_DURATION_MS
            && (0 <? scaleStep r)%Z
    then (scaleStep r - 1)%Z
    else scaleStep r.
Proof.
  selector_cases r.
Qed.

Lemma lastStep_updateRendererScale (r : Renderer) :
  lastStep (updateRendererScale r) = lastStep r.
Proof.
  selector_cases r.
Qed.

(** The average survives an evaluation that keeps the step and is reset
    to the midpoint by one that changes it. *)
Lemma avgFrameDuration_updateRendererScale (r : Renderer) :
  avgFrameDuration (updateRendererScale r)
  = if (scaleStep r =? scaleStep (updateRendererScale r))%Z
    then avgFrameDuration r else midpoint.
Proof.
  rewrite scaleStep_updateRendererScale.
  selector_cases r.
Qed.

Lemma controller_tail_updateRendererScale (r : Renderer) :
  controller_tail (updateRendererScale r) = controller_tail r.
Proof.
  selector_cases r.
Qed.

(** The three outcomes of one evaluation of the selector. *)
Lemma updateRendererScale_cases (r : Renderer) :
  let up := HIGH_FRAME_DURATION_MS < avgFrameDuration r
            /\ (scaleStep r < lastStep r)%Z in
  let down := avgFrameDuration r < LOW_FRAME_DURATION_MS
              /\ (0 < scaleStep r)%Z in
  (up /\ scaleStep (updateRendererScale r) = (scaleStep r + 1)%Z)
  \/ (~ up /\ down
      /\ scaleStep (updateRendererScale r) = (scaleStep r - 1)%Z)
  \/ (~ up /\ ~ down /\ scaleStep (updateRendererScale r) = scaleStep r).
Proof.
  cbv zeta. rewrite scaleStep_updateRendererScale.
  destruct (Qlt_bool HIGH_FRAME_DURATION_MS (avgFrameDuration r)) eqn:Eh;
    destruct (scaleStep r <? lastStep r)%Z eqn:El;
    destruct (Qlt_bool (avgFrameDuration r) LOW_FRAME_DURATION_MS) eqn:Ea;
    destruct (0 <? scaleStep r)%Z eqn:E0; cbn [andb];
    rewrite ?Qlt_bool_iff, ?Qlt_bool_false_iff in *;
    rewrite ?Z.ltb_lt, ?Z.ltb_ge in *;
    first
      [ left; split; [split; assumption | reflexivity]
      | right; left; split; [| split; [split; assumption | reflexivity]];
        intros [? ?]; (lra || lia)
      | right; right; split; [| split; [| reflexivity]];
        intros [? ?]; (lra || lia) ].
Qed.

(** ** Whole callbacks *)

Lemma controller_render_frame (dprNow t : Q) (r : Renderer) :
  canRender r = true -> isPresenting r = false ->
  controller (render dprNow t None r)
  = controller
      (updateRendererScale
         (updateAvgFrameDuration (t - lastTick r) (set_lastTick t r))).
Proof.
  intros Hc Hp. unfold render.
  unfold isPresenting in *. cbn [canRender arRenderer set_lastTick].
  rewrite Hc, Hp. cbn [negb orb].
  apply controller_renderFrame.
Qed.

Lemma controller_render_skipped (dprNow t : Q) (r : Renderer) :
  negb (canRender r) || isPresenting r = true ->
  render dprNow t None r = set_lastTick t r.
Proof.
  intros H. unfold render.
  unfold isPresenting in *. cbn [canRender arRenderer set_lastTick].
  now rewrite H.
Qed.

(** A callback either leaves average, step and limit alone, or it is a
    frame that went through the estimator and the selector. *)
Lemma render_cases (dprNow t : Q) (frame : option XRFrame) (r : Renderer) :
  (avgFrameDuration (render dprNow t frame r) = avgFrameDuration r
   /\ scaleStep (render dprNow t frame r) = scaleStep r
   /\ lastStep (render dprNow t frame r) = lastStep r)
  \/ (frame = None /\ canRender r = true /\ isPresenting r = false
      /\ controller (render dprNow t frame r)
         = controller
             (updateRendererScale
                (updateAvgFrameDuration (t - lastTick r)
                   (set_lastTick t r)))).
Proof.
  destruct frame as [f|]; [left; repeat split|].
  destruct (negb (canRender r) || isPresenting r) eqn:E.
  - left. rewrite controller_render_skipped by assumption. repeat split.
  - right. apply orb_false_iff in E as [Hc Hp].
    apply negb_false_iff in Hc.
    repeat split; try assumption.
    now apply controller_render_frame.
Qed.

Lemma lastStep_render (dprNow t : Q) (frame : option XRFrame)
    (r : Renderer) :
  lastStep (render dprNow t frame r) = lastStep r.
Proof.
  destruct (render_cases dprNow t frame r) as [(_ & _ & E) | (_ & _ & _ & E)];
    [exact E|].
  apply controller_eq in E as (_ & _ & E & _).
  now rewrite E, lastStep_updateRendererScale.
Qed.

(** [arRenderer] and [canRender] change only through an XR frame. *)
Lemma guards_render (dprNow t : Q) (r : Renderer) :
  canRender (render dprNow t None r) = canRender r
  /\ isPresenting (render dprNow t None r) = isPresenting r
  /\ lastTick (render dprNow t None r) = t.
Proof.
  destruct (negb (canRender r) || isPresenting r) eqn:E.
  - rewrite controller_render_skipped by assumption. repeat split.
  - apply orb_false_iff in E as [Hc Hp]. apply negb_false_iff in Hc.
    destruct (controller_eq _ _ (controller_render_frame dprNow t r Hc Hp))
      as (_ & _ & _ & Ht & Hcr & Har).
    unfold isPresenting. rewrite Ht, Hcr, Har.
    pose proof (controller_tail_updateRendererScale
                  (updateAvgFrameDuration (t - lastTick r)
                     (set_lastTick t r))) as Hf.
    unfold controller_tail in Hf. injection Hf as -> -> ->.
    repeat split.
Qed.

(** The step stays within its bounds across one evaluation. *)
Lemma updateRendererScale_bounds (r : Renderer) :
  (0 <= scaleStep r <= lastStep r)%Z ->
  (0 <= scaleStep (updateRendererScale r) <= lastStep r)%Z.
Proof.
  intros H.
  destruct (updateRendererScale_cases r)
    as [[[_ U] E] | [(_ & [_ D] & E) | (_ & _ & E)]]; rewrite E; lia.
Qed.

(** An average between 20 ms and 24 ms cannot be carried past a threshold
    by one update, so the callback keeps the step. *)
Lemma steady_render (dprNow t : Q) (frame : option XRFrame) (r : Renderer) :
  20 <= avgFrameDuration r <= 24 ->
  scaleStep (render dprNow t frame r) = scaleStep r.
Proof.
  intros Havg.
  destruct (render_cases dprNow t frame r) as [(_ & E & _) | (_ & _ & _ & E)];
    [exact E|].
  apply controller_eq in E as (_ & E & _). rewrite E.
  set (r1 := updateAvgFrameDuration (t - lastTick r) (set_lastTick t r)).
  pose proof (estimator_step (avgFrameDuration r) (t - lastTick r))
    as [Hb _].
  assert (Ha : avgFrameDuration r - 2 <= avgFrameDuration r1
               <= avgFrameDuration r + 2) by exact Hb.
  destruct (updateRendererScale_cases r1)
    as [[[U _] _] | [(_ & [D _] & _) | (_ & _ & E1)]].
  - unfold HIGH_FRAME_DURATION_MS in U. lra.
  - unfold LOW_FRAME_DURATION_MS in D. lra.
  - exact E1.
Qed.

(** ** The claims about single evaluations *)

(** C1. One evaluation of the scale-step selector: above 26 ms and below
    the last step it adds one to [scaleStep]; otherwise below 18 ms and
    above step 0 it subtracts one; otherwise it keeps the step.  The step
    moves by at most one per evaluation, and so by at most one per render
    callback. *)
Theorem scale_step_selector (r : Renderer) :
  let avg := avgFrameDuration r in
  let step := scaleStep r in
  let step' := scaleStep (updateRendererScale r) in
  let up := 26 < avg /\ (step < lastStep r)%Z in
  let down := avg < 18 /\ (0 < step)%Z in
  (up -> step' = (step + 1)%Z)
  /\ (~ up -> down -> step' = (step - 1)%Z)
  /\ (~ up -> ~ down -> step' = step)
  /\ (Z.abs (step' - step) <= 1)%Z
  /\ (forall k : Tick, (Z.abs (scaleStep (renderTick r k) - step) <= 1)%Z).
Proof.
  cbv zeta.
  assert (Hone : forall r0 : Renderer,
             (Z.abs (scaleStep (updateRendererScale r0) - scaleStep r0)
              <= 1)%Z).
  { intros r0.
    destruct (updateRendererScale_cases r0)
      as [[_ E] | [[_ [_ E]] | [_ [_ E]]]]; rewrite E; lia. }
  pose proof (updateRendererScale_cases r) as H. cbv zeta in H.
  change HIGH_FRAME_DURATION_MS with (26 : Q) in H.
  change LOW_FRAME_DURATION_MS with (18 : Q) in H.
  repeat split.
  - intros Hup. destruct H as [[_ E] | [[N _] | [N _]]];
      [exact E | contradiction | contradiction].
  - intros Nup Hdown. destruct H as [[U _] | [[_ [_ E]] | [_ [N _]]]];
      [contradiction | exact E | contradiction].
  - intros Nup Ndown. destruct H as [[U _] | [[_ [D _]] | [_ [_ E]]]];
      [contradiction | contradiction | exact E].
  - apply Hone.
  - intros k. unfold renderTick.
    destruct (render_cases (tick_dpr k) (tick_time k) (tick_frame k) r)
      as [(_ & E & _) | (_ & _ & _ & E)].
    + rewrite E. lia.
    + apply controller_eq in E as (_ & E & _). rewrite E.
      apply (Hone (updateAvgFrameDuration (tick_time k - lastTick r)
                     (set_lastTick (tick_time k) r))).
Qed.

Section EstimatorUpdate.

Import Floats.


End EstimatorUpdate.

(** C10. A callback with an XR frame hands the frame to the AR renderer
    and returns: the frame timer, the average, the step, the step limit
    and every canvas and CSS size stay as they were.  The timer does not
    record [t], so the first duration computed after a series of XR frames
    reaches back to the last callback before them. *)
Theorem xr_frame_leaves_controller (dprNow t : Q) (f : XRFrame)
    (r : Renderer) :
  let r' := render dprNow t (Some f) r in
  r' = set_arRenderer (onWebXRFrame t f (arRenderer r)) r
  /\ lastTick r' = lastTick r
  /\ avgFrameDuration r' = avgFrameDuration r
  /\ scaleStep r' = scaleStep r
  /\ lastStep r' = lastStep r
  /\ (width r', height r', dpr r') = (width r, height r, dpr r)
  /\ canvas3D r' = canvas3D r
  /\ scenes r' = scenes r
  /\ (forall (xr : list Tick) (k : Tick),
        Forall (fun x => tick_frame x <> None) xr ->
        tick_frame k = None ->
        lastTick (run xr r) = lastTick r
        /\ deltas (xr ++ [k]) r = [tick_time k - lastTick r]).
Proof.
  cbv zeta. do 8 (split; [reflexivity|]).
  intros xr k Hxr Hk. split.
  - clear Hk. revert r.
    induction Hxr as [|x xr Hx _ IH]; intros r; [reflexivity|].
    cbn [run fold_left]. fold (run xr (renderTick r x)). rewrite IH.
    unfold renderTick, render.
    destruct (tick_frame x); [reflexivity | contradiction].
  - revert r.
    induction Hxr as [|x xr Hx _ IH]; intros r.
    + cbn [app deltas]. now rewrite Hk.
    + cbn [app deltas].
      destruct (tick_frame x) eqn:E; [|contradiction].
      rewrite IH. unfold renderTick, render. now rewrite E.
Qed.

(** ** Runs of the animation loop *)

Lemma scaleStep_bounds_render (dprNow t : Q) (frame : option XRFrame)
    (r : Renderer) :
  (0 <= scaleStep r <= lastStep r)%Z ->
  (0 <= scaleStep (render dprNow t frame r) <= lastStep r)%Z.
Proof.
  intros H.
  destruct (render_cases dprNow t frame r) as [(_ & E & _) | (_ & _ & _ & E)].
  - now rewrite E.
  - apply controller_eq in E as (_ & E & _). rewrite E.
    apply (updateRendererScale_bounds
             (updateAvgFrameDuration (t - lastTick r) (set_lastTick t r))).
    exact H.
Qed.

Lemma run_bounds (ticks : list Tick) :
  forall r : Renderer,
    (0 <= scaleStep r <= lastStep r)%Z ->
    (0 <= scaleStep (run ticks r) <= lastStep r)%Z
    /\ lastStep (run ticks r) = lastStep r.
Proof.
  induction ticks as [|k ticks IH]; intros r H; [now split|].
  cbn [run fold_left]. fold (run ticks (renderTick r k)).
  pose proof (scaleStep_bounds_render (tick_dpr k) (tick_time k)
                (tick_frame k) r H) as H1.
  pose proof (lastStep_render (tick_dpr k) (tick_time k) (tick_frame k) r)
    as H2.
  fold (renderTick r k) in H1, H2. rewrite <- H2 in H1.
  destruct (IH _ H1) as [Hb Hl]. rewrite Hl, H2 in *. now split.
Qed.

(** C4. From [scaleStep = 0] and a step limit inside the scale table,
    whatever callbacks the host delivers, after every one of them
    [0 <= scaleStep <= lastStep <= len(SCALE_STEPS) - 1], and the limit is
    the one the run started with. *)
Theorem scaleStep_invariant (r : Renderer) (ticks : list Tick) (n : nat) :
  scaleStep r = 0%Z ->
  (0 <= lastStep r <= Z.of_nat (length SCALE_STEPS) - 1)%Z ->
  let r' := run (firstn n ticks) r in
  (0 <= scaleStep r' <= lastStep r')%Z
  /\ (lastStep r' <= Z.of_nat (length SCALE_STEPS) - 1)%Z
  /\ lastStep r' = lastStep r.
Proof.
  intros H0 Hl. cbv zeta.
  destruct (run_bounds (firstn n ticks) r) as [Hb E]; [lia|].
  rewrite E. repeat split; lia.
Qed.

(** C6. An evaluation that changes the step resets the average to the
    midpoint 22 ms, and the callback that follows a step change keeps the
    step: one update moves the average by at most 2 ms, not enough to
    leave the band between 18 ms and 26 ms. *)
Theorem step_change_resets_average (r : Renderer) (k1 k2 : Tick) :
  scaleStep (renderTick r k1) <> scaleStep r ->
  avgFrameDuration (renderTick r k1) == 22
  /\ scaleStep (renderTick (renderTick r k1) k2)
     = scaleStep (renderTick r k1)
  /\ (forall r0 : Renderer,
        scaleStep (updateRendererScale r0) <> scaleStep r0 ->
        avgFrameDuration (updateRendererScale r0) == 22).
Proof.
  intros Hch.
  assert (Hreset : forall r0 : Renderer,
             scaleStep (updateRendererScale r0) <> scaleStep r0 ->
             avgFrameDuration (updateRendererScale r0) == 22).
  { intros r0 H0. rewrite avgFrameDuration_updateRendererScale.
    destruct (scaleStep r0 =? scaleStep (updateRendererScale r0))%Z eqn:E.
    - apply Z.eqb_eq in E. congruence.
    - reflexivity. }
  assert (Havg : avgFrameDuration (renderTick r k1) == 22).
  { unfold renderTick in *.
    destruct (render_cases (tick_dpr k1) (tick_time k1) (tick_frame k1) r)
      as [(_ & E & _) | (_ & _ & _ & E)]; [contradiction|].
    apply controller_eq in E as (Ea & Es & _).
    rewrite Ea. apply Hreset. rewrite <- Es. exact Hch. }
  repeat split; [exact Havg | | exact Hreset].
  unfold renderTick at 1. apply steady_render. lra.
Qed.

(** ** The constructor *)

(** Without a step to give back and with the average at most [26 - 2n],
    [n] callbacks cannot raise the average above the upper threshold. *)
Lemma no_step_while_warming (ticks : list Tick) :
  forall r : Renderer,
    scaleStep r = 0%Z ->
    avgFrameDuration r + 2 * inject_Z (Z.of_nat (length ticks)) <= 26 ->
    scaleStep (run ticks r) = 0%Z
    /\ avgFrameDuration (run ticks r)
       <= avgFrameDuration r + 2 * inject_Z (Z.of_nat (length ticks)).
Proof.
  induction ticks as [|k ticks IH]; intros r H0 Ha.
  - cbn [run fold_left length].
    change (inject_Z (Z.of_nat 0)) with 0. split; [assumption | lra].
  - cbn [run fold_left]. fold (run ticks (renderTick r k)).
    cbn [length] in *. rewrite Nat2Z.inj_succ, <- Z.add_1_r, inject_Z_plus in *.
    change (inject_Z 1) with 1 in *.
    assert (Hk : scaleStep (renderTick r k) = 0%Z
                 /\ avgFrameDuration (renderTick r k)
                    <= avgFrameDuration r + 2).
    { unfold renderTick.
      destruct (render_cases (tick_dpr k) (tick_time k) (tick_frame k) r)
        as [(Ea & Es & _) | (_ & _ & _ & E)].
      - rewrite Ea, Es. split; [assumption | lra].
      - apply controller_eq in E as (Ea & Es & _). rewrite Ea, Es.
        set (r1 := updateAvgFrameDuration (tick_time k - lastTick r)
                     (set_lastTick (tick_time k) r)).
        pose proof (estimator_step (avgFrameDuration r)
                      (tick_time k - lastTick r)) as [Hb _].
        assert (Hr1 : avgFrameDuration r1 <= avgFrameDuration r + 2)
          by apply Hb.
        assert (Hs1 : scaleStep r1 = 0%Z) by exact H0.
        rewrite avgFrameDuration_updateRendererScale.
        destruct (updateRendererScale_cases r1)
          as [[[U _] _] | [(_ & [_ D] & _) | (_ & _ & E1)]].
        + unfold HIGH_FRAME_DURATION_MS in U.
          assert (0 <= inject_Z (Z.of_nat (length ticks))).
          { change 0 with (inject_Z 0). rewrite <- Zle_Qle. lia. }
          lra.
        + lia.
        + rewrite E1, Hs1, Z.eqb_refl. split; [reflexivity | exact Hr1]. }
    destruct Hk as [Hs Hav].
    destruct (IH (renderTick r k) Hs) as [Hs' Ha']; [lra|].
    split; [assumption | lra].
Qed.

(** C3, as the code has it.  The field initialiser sets the average to
    the midpoint 22 ms, and the last statement of the constructor
    overwrites it with 0.  A new renderer therefore starts at step 0 with
    an average of 0 ms; it cannot scale up before the average has climbed
    above 26 ms, which the first thirteen callbacks cannot achieve. *)
Theorem constructor_average (dprNow : Q) (webgl : bool) (ar : ARRenderer)
    (now : Q) :
  let r := constructor dprNow webgl ar now in
  avgFrameDuration (initialFields ar) == 22
  /\ avgFrameDuration r == 0
  /\ scaleStep r = 0%Z
  /\ lastTick r = now
  /\ (forall ticks : list Tick,
        (length ticks <= 13)%nat -> scaleStep (run ticks r) = 0%Z).
Proof.
  cbv zeta.
  assert (Hs : scaleStep (constructor dprNow webgl ar now) = 0%Z).
  { unfold constructor.
    cbn [scaleStep set_avgFrameDuration set_lastTick].
    pose proof (controller_updateRendererSize dprNow
      (set_canRender webgl (set_size 0 0 dprNow (initialFields ar)))) as H.
    apply controller_eq in H as (_ & H & _). exact H. }
  split; [reflexivity|]. split; [reflexivity|]. split; [exact Hs|].
  split; [reflexivity|].
  intros ticks Hlen.
  apply no_step_while_warming; [exact Hs|].
  assert (inject_Z (Z.of_nat (length ticks)) <= 13).
  { change 13 with (inject_Z 13). rewrite <- Zle_Qle. lia. }
  change (avgFrameDuration (constructor dprNow webgl ar now)) with 0.
  lra.
Qed.

(** ** The minimum scale *)

(** The loop stops at the first entry below the minimum: it returns an
    index between [i] and [i + len(rest)], every entry it walked over is
    at least the minimum, and the entry it stopped at, if any, is below. *)
Lemma minScale_loop_spec (scale : Q) (rest : list Q) :
  forall i : Z,
    let k := minScale_loop rest i scale in
    (i <= k <= i + Z.of_nat (length rest))%Z
    /\ (forall n s, (Z.of_nat n < k - i)%Z ->
                    nth_error rest n = Some s -> scale <= s)
    /\ (forall s, nth_error rest (Z.to_nat (k - i)) = Some s -> s < scale).
Proof.
  induction rest as [|x rest IH]; intros i; cbn [minScale_loop length].
  - split; [lia | split].
    + intros n s Hn. lia.
    + intros s. rewrite Z.sub_diag. discriminate.
  - destruct (Qlt_bool x scale) eqn:E.
    + apply Qlt_bool_iff in E. split; [lia | split].
      * intros n s Hn. lia.
      * intros s. rewrite Z.sub_diag. cbn. intros [= <-]. exact E.
    + apply Qlt_bool_false_iff in E.
      destruct (IH (i + 1)%Z) as (Hr & Hwalk & Hstop).
      set (k := minScale_loop rest (i + 1) scale) in *.
      split; [lia | split].
      * intros [|n] s Hn; cbn [nth_error].
        -- intros [= <-]. exact E.
        -- apply Hwalk. lia.
      * intros s.
        replace (Z.to_nat (k - i)) with (S (Z.to_nat (k - (i + 1)))) by lia.
        cbn [nth_error]. apply Hstop.
Qed.

(** The scale table decreases strictly. *)
Lemma SCALE_STEPS_decreasing (i j : nat) (a b : Q) :
  (i < j)%nat ->
  nth_error SCALE_STEPS i = Some a -> nth_error SCALE_STEPS j = Some b ->
  b < a.
Proof.
  intros Hij Ha Hb.
  assert (Hj : (j < length SCALE_STEPS)%nat)
    by (apply nth_error_Some; congruence).
  change (length SCALE_STEPS) with 7%nat in Hj.
  destruct i as [|[|[|[|[|[|[|i]]]]]]]; try lia;
    destruct j as [|[|[|[|[|[|[|j]]]]]]]; try lia;
    cbn in Ha, Hb; injection Ha as <-; injection Hb as <-; reflexivity.
Qed.

(** C5. For a minimum scale in (0, 1], the setter leaves in [lastStep]
    the largest index of [SCALE_STEPS] whose entry is at least the
    minimum; it is found by walking up from index 1 and stopping at the
    first entry below the minimum. *)
Theorem minScale_lastStep (m : Q) (r : Renderer) :
  0 < m -> m <= 1 ->
  let k := lastStep (set_minScale m r) in
  (0 <= k <= Z.of_nat (length SCALE_STEPS) - 1)%Z
  /\ (exists s, nth_error SCALE_STEPS (Z.to_nat k) = Some s /\ m <= s)
  /\ (forall j s, (k < j)%Z ->
                  nth_error SCALE_STEPS (Z.to_nat j) = Some s -> s < m)
  /\ (forall j s, (1 <= j <= k)%Z ->
                  nth_error SCALE_STEPS (Z.to_nat j) = Some s -> m <= s).
Proof.
  intros Hpos Hle. cbv zeta.
  unfold set_minScale. cbn [lastStep set_lastStep].
  destruct (minScale_loop_spec m (skipn 1 SCALE_STEPS) 1%Z)
    as (Hr & Hwalk & Hstop).
  set (i := minScale_loop (skipn 1 SCALE_STEPS) 1 m) in *.
  change (Z.of_nat (length (skipn 1 SCALE_STEPS))) with 6%Z in Hr.
  change (Z.of_nat (length SCALE_STEPS)) with 7%Z.
  assert (Hshift : forall n, nth_error (skipn 1 SCALE_STEPS) n
                             = nth_error SCALE_STEPS (S n))
    by reflexivity.
  assert (Hwalk' : forall j s, (1 <= j <= i - 1)%Z ->
                     nth_error SCALE_STEPS (Z.to_nat j) = Some s -> m <= s).
  { intros j s Hj Hs.
    apply (Hwalk (Z.to_nat (j - 1)) s); [lia|].
    rewrite Hshift. now replace (S (Z.to_nat (j - 1))) with (Z.to_nat j)
      by lia. }
  split; [lia|]. split; [|split].
  - destruct (Z.eq_dec i 1) as [E | N].
    + exists 1. rewrite E. split; [reflexivity | exact Hle].
    + destruct (nth_error SCALE_STEPS (Z.to_nat (i - 1))) as [s|] eqn:Es.
      * exists s. split; [reflexivity|]. apply (Hwalk' (i - 1)%Z); [lia|].
        exact Es.
      * apply nth_error_None in Es.
        change (length SCALE_STEPS) with 7%nat in Es. lia.
  - intros j s Hj Hs.
    destruct (nth_error SCALE_STEPS (Z.to_nat i)) as [si|] eqn:Ei.
    + assert (Hsi : si < m).
      { apply Hstop. rewrite Hshift.
        now replace (S (Z.to_nat (i - 1))) with (Z.to_nat i) by lia. }
      destruct (Z.eq_dec j i) as [-> | N].
      * congruence.
      * assert (s < si);
          [apply (SCALE_STEPS_decreasing (Z.to_nat i) (Z.to_nat j));
           [lia | assumption | assumption] | lra].
    + apply nth_error_None in Ei.
      assert (nth_error SCALE_STEPS (Z.to_nat j) = None)
        by (apply nth_error_None; lia).
      congruence.
  - exact Hwalk'.
Qed.

(** ** Frames that reach the estimator *)

(** A frame that reaches the estimator: the guards stay as they are, the
    timer records [t], and the step follows the updated average [a']. *)
Lemma frame_tick (dprNow t : Q) (r : Renderer) :
  canRender r = true -> isPresenting r = false ->
  let r' := render dprNow t None r in
  let a' :=
    avgFrameDuration r
    + clamp (DURATION_DECAY * (t - lastTick r - avgFrameDuration r))
        (- MAX_AVG_CHANGE_MS) MAX_AVG_CHANGE_MS in
  canRender r' = true /\ isPresenting r' = false /\ lastTick r' = t
  /\ lastStep r' = lastStep r
  /\ (a' <= 26 -> scaleStep r = 0%Z ->
      scaleStep r' = 0%Z /\ avgFrameDuration r' == a')
  /\ (26 < a' -> (scaleStep r < lastStep r)%Z ->
      scaleStep r' = (scaleStep r + 1)%Z /\ avgFrameDuration r' == 22).
Proof.
  intros Hc Hp. cbv zeta.
  destruct (guards_render dprNow t r) as (Hc' & Hp' & Ht').
  rewrite Hc', Hp', Ht', lastStep_render.
  do 4 (split; [assumption || reflexivity|]).
  destruct (controller_eq _ _ (controller_render_frame dprNow t r Hc Hp))
    as (Ea & Es & _).
  rewrite Ea, Es, avgFrameDuration_updateRendererScale.
  set (r1 := updateAvgFrameDuration (t - lastTick r) (set_lastTick t r)).
  pose proof (updateRendererScale_cases r1) as Hcases. cbv zeta in Hcases.
  change (avgFrameDuration r1)
    with (avgFrameDuration r
          + clamp (DURATION_DECAY * (t - lastTick r - avgFrameDuration r))
              (- MAX_AVG_CHANGE_MS) MAX_AVG_CHANGE_MS) in *.
  change (scaleStep r1) with (scaleStep r) in *.
  change (lastStep r1) with (lastStep r) in *.
  unfold HIGH_FRAME_DURATION_MS, LOW_FRAME_DURATION_MS in Hcases.
  split.
  - intros Ha H0.
    destruct Hcases as [[[U _] _] | [(_ & [_ D] & _) | (_ & _ & E)]];
      [lra | lia |].
    rewrite E, Z.eqb_refl. split; [exact H0 | reflexivity].
  - intros Ha Hl.
    destruct Hcases as [[_ E] | [(N & _) | (N & _)]];
      [| exfalso; apply N; split; assumption ..].
    rewrite E.
    replace (scaleStep r =? scaleStep r + 1)%Z with false
      by (symmetry; apply Z.eqb_neq; lia).
    split; reflexivity.
Qed.

(** C7, as the code has it.  From an average of 22 ms at step 0 with at
    least one step available, four frames with a duration of 30 ms each
    raise the average to about 23.6, 24.88 and 25.904 ms (each within
    0.001 ms, and below the threshold of 26 ms) without a step change; the
    fourth frame raises it above the threshold, so the step becomes 1 and
    the average is reset to 22 ms. *)
Theorem constant_30ms_scenario (r : Renderer)
    (d1 d2 d3 d4 t1 t2 t3 t4 : Q) :
  canRender r = true -> isPresenting r = false ->
  avgFrameDuration r == 22 -> scaleStep r = 0%Z -> (1 <= lastStep r)%Z ->
  t1 - lastTick r == 30 -> t2 - t1 == 30 -> t3 - t2 == 30 ->
  t4 - t3 == 30 ->
  let r1 := render d1 t1 None r in
  let r2 := render d2 t2 None r1 in
  let r3 := render d3 t3 None r2 in
  let r4 := render d4 t4 None r3 in
  (scaleStep r1 = 0%Z /\ 23.599 < avgFrameDuration r1 < 23.601)
  /\ (scaleStep r2 = 0%Z /\ 24.879 < avgFrameDuration r2 < 24.881)
  /\ (scaleStep r3 = 0%Z /\ 25.903 < avgFrameDuration r3 < 25.905)
  /\ (scaleStep r4 = 1%Z /\ avgFrameDuration r4 == 22).
Proof.
  intros Hc Hp Ha H0 Hl D1 D2 D3 D4. cbv zeta.
  assert (Hstep : forall a d x : Q,
             d - a <= 10 -> a <= d ->
             x == a + 0.2 * (d - a) ->
             a + clamp (DURATION_DECAY * (d - a))
                   (- MAX_AVG_CHANGE_MS) MAX_AVG_CHANGE_MS == x).
  { intros a d x H1 H2 Hx. unfold DURATION_DECAY, MAX_AVG_CHANGE_MS.
    destruct (clamp_cases (0.2 * (d - a)) (- (2)) 2)
      as [[H E] | [[H E] | [H E]]]; [lra | | |]; rewrite E; lra. }
  destruct (frame_tick d1 t1 r Hc Hp)
    as (Hc1 & Hp1 & Ht1 & Hl1 & Q1 & _).
  set (r1 := render d1 t1 None r) in *.
  rewrite (Hstep _ _ 23.6) in Q1 by lra.
  destruct Q1 as [S1 A1]; [lra | assumption |].
  destruct (frame_tick d2 t2 r1 Hc1 Hp1)
    as (Hc2 & Hp2 & Ht2 & Hl2 & Q2 & _).
  set (r2 := render d2 t2 None r1) in *.
  rewrite (Hstep _ _ 24.88) in Q2 by (rewrite Ht1; lra).
  destruct Q2 as [S2 A2]; [lra | assumption |].
  destruct (frame_tick d3 t3 r2 Hc2 Hp2)
    as (Hc3 & Hp3 & Ht3 & Hl3 & Q3 & _).
  set (r3 := render d3 t3 None r2) in *.
  rewrite (Hstep _ _ 25.904) in Q3 by (rewrite Ht2; lra).
  destruct Q3 as [S3 A3]; [lra | assumption |].
  destruct (frame_tick d4 t4 r3 Hc3 Hp3)
    as (_ & _ & _ & _ & _ & Q4).
  rewrite (Hstep _ _ 26.7232) in Q4 by (rewrite Ht3; lra).
  destruct Q4 as [S4 A4]; [lra | lia |].
  rewrite S3 in S4.
  split; [split; [assumption | lra]|].
  split; [split; [assumption | lra]|].
  split; [split; [assumption | lra]|].
  split; assumption.
Qed.

(** ** The range of the average *)

(** C9, as the code has it.  The average stays within any interval that
    holds its starting value (0 ms after construction), the midpoint 22 ms
    it is reset to on a step change, and the frame durations computed so
    far: each update moves it towards the new duration and never past
    it. *)
Theorem average_within_observed (lo hi : Q) (ticks : list Tick)
    (r : Renderer) :
  lo <= avgFrameDuration r <= hi ->
  lo <= 22 <= hi ->
  Forall (fun d => lo <= d <= hi) (deltas ticks r) ->
  lo <= avgFrameDuration (run ticks r) <= hi.
Proof.
  intros Hr Hmid. revert r Hr.
  induction ticks as [|k ticks IH]; intros r Hr Hd; [exact Hr|].
  cbn [run fold_left]. fold (run ticks (renderTick r k)).
  cbn [deltas] in Hd.
  apply IH.
  - unfold renderTick.
    destruct (render_cases (tick_dpr k) (tick_time k) (tick_frame k) r)
      as [(Ea & _) | (Ef & _ & _ & E)].
    + now rewrite Ea.
    + rewrite Ef in Hd. apply Forall_inv in Hd.
      apply controller_eq in E as (Ea & _). rewrite Ea.
      rewrite avgFrameDuration_updateRendererScale.
      match goal with |- context [if ?c then _ else _] => destruct c end.
      * pose proof (estimator_step (avgFrameDuration r)
                      (tick_time k - lastTick r)) as (_ & Hup & Hdown).
        cbn [updateAvgFrameDuration avgFrameDuration set_avgFrameDuration
             set_lastTick].
        destruct (Qlt_le_dec (tick_time k - lastTick r) (avgFrameDuration r))
          as [Hlt | Hge].
        -- specialize (Hdown (Qlt_le_weak _ _ Hlt)). lra.
        -- specialize (Hup Hge). lra.
      * change midpoint with (44 # 2). lra.
  - destruct (tick_frame k); [exact Hd | now apply Forall_inv_tail in Hd].
Qed.

(** ** The resizer *)

Lemma Math_round_integer (x : Q) (n : Z) :
  x == inject_Z n -> Math_round x = n.
Proof.
  intros E. unfold Math_round.
  assert (H : (n <= Qfloor (x + (1 # 2)) < n + 1)%Z).
  { split.
    - rewrite <- (Qfloor_Z n). apply Qfloor_resp_le. rewrite E. lra.
    - rewrite Zlt_Qlt. eapply Qle_lt_trans; [apply Qfloor_le|].
      rewrite E, inject_Z_plus. change (inject_Z 1) with 1. lra. }
  lia.
Qed.

End Properties.

(** * The claims on concrete pages *)

(** ** Instances of the theorems above *)

Section EstimatorInstances.

Import Floats.


End EstimatorInstances.

Lemma scaleStep_invariant_steady :
  scaleStep steadyRenderer = 0%Z
  /\ (0 <= lastStep steadyRenderer <= Z.of_nat (length SCALE_STEPS) - 1)%Z
  /\ (0 <= scaleStep (run (firstn 2 [frameAt 30; frameAt 60; frameAt 90])
                        steadyRenderer) <= 3)%Z.
Proof.
  split; [reflexivity|]. split; [vm_compute; split; discriminate|].
  apply (@scaleStep_invariant idleHost steadyRenderer
           [frameAt 30; frameAt 60; frameAt 90] 2);
    [reflexivity | vm_compute; split; discriminate].
Defined.

Lemma minScale_lastStep_half :
  0 < 0.5 /\ 0.5 <= 1
  /\ (0 <= lastStep (set_minScale 0.5 steadyRenderer)
      <= Z.of_nat (length SCALE_STEPS) - 1)%Z.
Proof.
  split; [reflexivity|]. split; [vm_compute; discriminate|].
  apply (@minScale_lastStep idleHost 0.5 steadyRenderer);
    [reflexivity | vm_compute; discriminate].
Defined.

Lemma step_change_resets_average_slow :
  scaleStep (renderTick slowRenderer (frameAt 30)) <> scaleStep slowRenderer
  /\ avgFrameDuration (renderTick slowRenderer (frameAt 30)) == 22
  /\ scaleStep (renderTick (renderTick slowRenderer (frameAt 30))
                  (frameAt 90))
     = scaleStep (renderTick slowRenderer (frameAt 30)).
Proof.
  split; [vm_compute; discriminate|].
  pose proof (@step_change_resets_average idleHost slowRenderer
                (frameAt 30) (frameAt 90)) as H.
  destruct H as (Ha & Hs & _); [vm_compute; discriminate|].
  split; assumption.
Defined.

Lemma constant_30ms_scenario_steady :
  canRender steadyRenderer = true /\ isPresenting steadyRenderer = false
  /\ avgFrameDuration steadyRenderer == 22
  /\ scaleStep steadyRenderer = 0%Z /\ (1 <= lastStep steadyRenderer)%Z
  /\ 30 - lastTick steadyRenderer == 30 /\ 60 - 30 == 30
  /\ 90 - 60 == 30 /\ 120 - 90 == 30
  /\ scaleStep
       (render 1 120 None
          (render 1 90 None
             (render 1 60 None (render 1 30 None steadyRenderer)))) = 1%Z.
Proof.
  do 4 (split; [reflexivity|]). split; [vm_compute; discriminate|].
  do 4 (split; [reflexivity|]).
  apply (@constant_30ms_scenario idleHost steadyRenderer 1 1 1 1
           30 60 90 120);
    try reflexivity.
  vm_compute; discriminate.
Defined.

Lemma average_within_observed_fresh :
  0 <= avgFrameDuration freshRenderer <= 30 /\ 0 <= 22 <= 30
  /\ Forall (fun d => 0 <= d <= 30)
       (deltas [frameAt 30; frameAt 60] freshRenderer)
  /\ 0 <= avgFrameDuration (run [frameAt 30; frameAt 60] freshRenderer)
     <= 30.
Proof.
  assert (H1 : 0 <= avgFrameDuration freshRenderer <= 30)
    by (split; vm_compute; discriminate).
  assert (H2 : 0 <= 22 <= 30) by (split; vm_compute; discriminate).
  assert (H3 : Forall (fun d => 0 <= d <= 30)
                 (deltas [frameAt 30; frameAt 60] freshRenderer))
    by (repeat constructor; vm_compute; discriminate).
  split; [exact H1|]. split; [exact H2|]. split; [exact H3|].
  exact (@average_within_observed idleHost 0 30 [frameAt 30; frameAt 60]
           freshRenderer H1 H2 H3).
Defined.

(** ** Where the code departs from the specification's wording *)

Section EstimatorRounding.

Import Floats.


End EstimatorRounding.

(** C3 as stated fails: the average of a new renderer is 0 ms, not the
    midpoint 22 ms. *)
Lemma constructor_average_is_not_midpoint :
  avgFrameDuration freshRenderer == 0
  /\ ~ avgFrameDuration freshRenderer == 22.
Proof.
  split; [reflexivity|]. intros H. vm_compute in H. discriminate.
Qed.

(** C7 as stated fails: after two frames 30 ms apart the step is still 0,
    with the average between 24.8 and 24.9 ms, below the threshold of
    26 ms. *)
Lemma two_frames_do_not_reach_step_1 :
  avgFrameDuration steadyRenderer == 22
  /\ scaleStep steadyRenderer = 0%Z
  /\ deltas [frameAt 30; frameAt 60] steadyRenderer = [30; 30]
  /\ scaleStep (run [frameAt 30] steadyRenderer) = 0%Z
  /\ scaleStep (run [frameAt 30; frameAt 60] steadyRenderer) = 0%Z
  /\ 24.8 < avgFrameDuration (run [frameAt 30; frameAt 60] steadyRenderer)
     < 24.9
  /\ ~ 26 < avgFrameDuration (run [frameAt 30; frameAt 60] steadyRenderer).
Proof.
  do 5 (split; [reflexivity|]). split; [split; reflexivity|].
  intros H. vm_compute in H. discriminate.
Qed.

(** C8 as stated fails: the second surface, 400x300, gets the CSS size
    800x600 of the union, not its own size. *)
Lemma second_surface_css_is_union :
  scaleFactor twoSurfaces = Some 1
  /\ dpr twoSurfaces == 2
  /\ map (fun s => (scene_width s, scene_height s)) (scenes twoSurfaces)
     = [(800, 600); (400, 300)]
  /\ map (fun s => (style_width (canvas s), style_height (canvas s)))
       (scenes (updateRendererSize 2 twoSurfaces))
     = [(css_px 800, css_px 600); (css_px 800, css_px 600)]
  /\ ~ 800 == 400.
Proof.
  do 4 (split; [reflexivity|]). intros H. vm_compute in H. discriminate.
Qed.

(** C9 as stated fails: after one frame of 30 ms the only duration seen is
    30 ms, and the average of a new renderer is 2 ms. *)
Lemma average_below_observed_durations :
  deltas [frameAt 30] freshRenderer = [30]
  /\ avgFrameDuration (run [frameAt 30] freshRenderer) == 2
  /\ ~ 30 <= avgFrameDuration (run [frameAt 30] freshRenderer).
Proof.
  do 2 (split; [reflexivity|]). intros H. vm_compute in H.
  apply H. reflexivity.
Qed.

(** * Further properties of the renderer *)

Section Registry.

Context {host : Host}.

(** ** The scene registry *)

Lemma lookupScene_None (id : nat) (l : list ModelScene) :
  lookupScene id l = None <-> ~ In id (map sceneId l).
Proof.
  unfold lookupScene. induction l as [|s l IH]; cbn.
  - split; [intros _ [] | reflexivity].
  - destruct (Nat.eqb (sceneId s) id) eqn:E.
    + apply Nat.eqb_eq in E. split; [discriminate | intros H; exfalso; auto].
    + apply Nat.eqb_neq in E. rewrite IH. tauto.
Qed.

Lemma updateScene_ids (id : nat) (f : ModelScene -> ModelScene)
    (l : list ModelScene) :
  (forall s, sceneId (f s) = sceneId s) ->
  map sceneId (updateScene id f l) = map sceneId l.
Proof.
  intros Hf. unfold updateScene. rewrite map_map. apply map_ext.
  intros s. destruct (Nat.eqb (sceneId s) id); [apply Hf | reflexivity].
Qed.

Lemma updateScene_absent (id : nat) (f : ModelScene -> ModelScene)
    (l : list ModelScene) :
  ~ In id (map sceneId l) -> updateScene id f l = l.
Proof.
  unfold updateScene. induction l as [|s l IH]; cbn; intros H; [reflexivity|].
  destruct (Nat.eqb (sceneId s) id) eqn:E.
  - apply Nat.eqb_eq in E. exfalso. auto.
  - rewrite IH by tauto. reflexivity.
Qed.

Lemma filter_absent (id : nat) (l : list ModelScene) :
  ~ In id (map sceneId l) ->
  filter (fun s => negb (Nat.eqb (sceneId s) id)) l = l.
Proof.
  induction l as [|s l IH]; cbn; intros H; [reflexivity|].
  destruct (Nat.eqb (sceneId s) id) eqn:E.
  - apply Nat.eqb_eq in E. exfalso. auto.
  - cbn. rewrite IH by tauto. reflexivity.
Qed.

Lemma register_then_filter (id : nat) (f : ModelScene -> ModelScene)
    (scene : ModelScene) (l : list ModelScene) :
  ~ In id (map sceneId l) -> sceneId scene = id ->
  (forall s, sceneId (f s) = sceneId s) ->
  filter (fun s => negb (Nat.eqb (sceneId s) id))
    (updateScene id f (l ++ [scene])) = l.
Proof.
  intros Hl Hs Hf. unfold updateScene. rewrite map_app, filter_app.
  fold (updateScene id f l). rewrite updateScene_absent by assumption.
  rewrite filter_absent by assumption.
  cbn [map filter]. rewrite Hs, Nat.eqb_refl, Hf, Hs, Nat.eqb_refl.
  cbn [negb]. apply app_nil_r.
Qed.

(** X1. Registering a scene puts it into the registry exactly once: a scene
    that is already registered is not added again, a new one goes to the
    end, and identities stay distinct. *)
Theorem registerScene_once (scene : ModelScene) (r : Renderer) :
  NoDup (map sceneId (scenes r)) ->
  let ids := map sceneId (scenes r) in
  let ids' := map sceneId (scenes (registerScene scene r)) in
  NoDup ids'
  /\ In (sceneId scene) ids'
  /\ (In (sceneId scene) ids -> ids' = ids)
  /\ (~ In (sceneId scene) ids -> ids' = ids ++ [sceneId scene]).
Proof.
  intros Hnd. cbv zeta. unfold registerScene. cbn [scenes set_scenes].
  rewrite updateScene_ids by reflexivity.
  destruct (lookupScene (sceneId scene) (scenes r)) as [s0|] eqn:E.
  - assert (Hin : In (sceneId scene) (map sceneId (scenes r))).
    { destruct (in_dec Nat.eq_dec (sceneId scene) (map sceneId (scenes r)))
        as [H | H]; [exact H|].
      apply lookupScene_None in H. congruence. }
    repeat split; try assumption; try reflexivity. intros H. contradiction.
  - apply lookupScene_None in E. rewrite map_app. cbn [map].
    split; [|split; [|split]].
    + apply NoDup_app; [assumption | repeat constructor; intros [] |].
      intros x Hx [<- | []]. contradiction.
    + apply in_or_app. right. now left.
    + intros H. contradiction.
    + reflexivity.
Qed.

(** X2. Registering a scene that was not registered and unregistering it
    again gives back the renderer as it was: no other scene and no field
    of the renderer has changed. *)
Theorem register_unregister (scene : ModelScene) (r : Renderer) :
  ~ In (sceneId scene) (map sceneId (scenes r)) ->
  unregisterScene scene (registerScene scene r) = r.
Proof.
  intros Hfresh. unfold unregisterScene, registerScene.
  cbn [scenes set_scenes].
  assert (E : lookupScene (sceneId scene) (scenes r) = None)
    by now apply lookupScene_None.
  rewrite E, register_then_filter by (assumption || reflexivity).
  destruct r; reflexivity.
Qed.

End Registry.

Section CanvasSizes.

Context {host : Host}.

(** ** Canvases that match the renderer *)

Lemma fold_left_view {A V : Type} (view : Renderer -> V)
    (f : Renderer -> A -> Renderer) (l : list A) :
  (forall r a, view (f r a) = view r) ->
  forall r, view (fold_left f l r) = view r.
Proof.
  intros Hf. induction l as [|a l IH]; intros r; cbn; [reflexivity|].
  rewrite IH. apply Hf.
Qed.

Lemma canvasSize_updateScene (id : nat) (f : ModelScene -> ModelScene)
    (l : list ModelScene) :
  (forall s, canvasSize (f s) = canvasSize s) ->
  map canvasSize (updateScene id f l) = map canvasSize l.
Proof.
  intros Hf. unfold updateScene. rewrite map_map. apply map_ext.
  intros s. destruct (Nat.eqb (sceneId s) id); [apply Hf | reflexivity].
Qed.

Lemma canvasesMatch_sizes (r r' : Renderer) :
  sizes r' = sizes r -> canvasesMatch r -> canvasesMatch r'.
Proof.
  unfold canvasesMatch. intros E.
  assert (Hr : rendererSize r' = rendererSize r) by exact (f_equal fst E).
  assert (Hs : map canvasSize (scenes r') = map canvasSize (scenes r))
    by exact (f_equal snd E).
  rewrite !Forall_forall. intros H.
  assert (H' : forall c, In c (map canvasSize (scenes r)) ->
                         c = rendererSize r).
  { intros c Hc. apply in_map_iff in Hc as (s & <- & Hin). now apply H. }
  intros s Hin. rewrite Hr. apply H'. rewrite <- Hs.
  now apply in_map.
Qed.

Lemma sizes_set_scenes (l : list ModelScene) (r : Renderer) :
  map canvasSize l = map canvasSize (scenes r) ->
  sizes (set_scenes l r) = sizes r.
Proof. intros H. unfold sizes. cbn [scenes set_scenes]. now rewrite H. Qed.

Lemma sizes_selectCanvas (r : Renderer) :
  sizes (selectCanvas r) = sizes r.
Proof.
  unfold selectCanvas.
  destruct (last (map Some (visibleScenesOf (scenes r))) None) as [v|];
    [|reflexivity].
  match goal with |- context [if ?c then r else _] => destruct c end;
    [reflexivity|].
  rewrite fold_left_view.
  - destruct (1 <? length (visibleScenesOf (scenes r)))%nat; reflexivity.
  - intros acc s. destruct (externalRenderer s); [reflexivity|].
    destruct (1 <? length (visibleScenesOf (scenes r)))%nat.
    + apply sizes_set_scenes, canvasSize_updateScene. reflexivity.
    + destruct (Nat.eqb (sceneId s) (sceneId v)); [|reflexivity].
      rewrite sizes_set_scenes; [reflexivity|].
      apply canvasSize_updateScene. reflexivity.
Qed.

Lemma sizes_drawScene (t delta : Q) (r : Renderer) (id : nat) :
  sizes (drawScene t delta r id) = sizes r.
Proof.
  unfold drawScene.
  destruct (lookupScene id (scenes r)) as [s|]; [|reflexivity].
  destruct (negb (modelIsVisible s) && (0 <? renderCount s)%Z);
    [reflexivity|].
  assert (Hpre : sizes (preRender id t delta r) = sizes r).
  { apply sizes_set_scenes, canvasSize_updateScene.
    intros s0. destruct (elementTick t delta s0); reflexivity. }
  destruct (lookupScene id (scenes (preRender id t delta r))) as [s1|];
    [|exact Hpre].
  destruct (negb (isDirty s1)); [exact Hpre|].
  destruct (externalRenderer s1); [exact Hpre|].
  rewrite <- Hpre.
  set (r1 := preRender id t delta r).
  assert (Hmark : sizes
            (if negb (modelIsVisible s1) && negb (multipleScenesVisible r1)
             then set_scenes
                    (map (fun s0 => if modelIsVisible s0
                                    then set_isDirty true s0 else s0)
                       (scenes r1)) r1
             else r1) = sizes r1).
  { destruct (negb (modelIsVisible s1) && negb (multipleScenesVisible r1));
      [|reflexivity].
    apply sizes_set_scenes. rewrite map_map. apply map_ext.
    intros s0. destruct (modelIsVisible s0); reflexivity. }
  rewrite <- Hmark. apply sizes_set_scenes, canvasSize_updateScene.
  intros s0.
  match goal with |- context [if ?c then set_hasContext true s0 else s0] =>
    destruct c end;
    match goal with |- context [if ?c then _ else _] => destruct c end;
    reflexivity.
Qed.

Lemma canvasesMatch_updateRendererSize (dprNow : Q) (r : Renderer) :
  canvasesMatch r -> canvasesMatch (updateRendererSize dprNow r).
Proof.
  intros H. unfold updateRendererSize.
  set (r1 := if negb (Qeq_bool dprNow (dpr r)) then _ else r).
  assert (H1 : canvasesMatch r1).
  { unfold r1. destruct (negb (Qeq_bool dprNow (dpr r))); [|exact H].
    apply (canvasesMatch_sizes r); [|exact H].
    apply sizes_set_scenes. rewrite map_map. apply map_ext.
    intros s. destruct (elementUpdateSize dprNow s). reflexivity. }
  match goal with |- context [if ?c then r1 else _] => destruct c end;
    [exact H1|].
  unfold canvasesMatch. cbn [canRender set_size].
  destruct (canRender r1);
    cbn [scenes set_scenes set_canvas3D];
    apply Forall_map, Forall_forall; intros s _; reflexivity.
Qed.

Lemma canvasesMatch_updateRendererScale (r : Renderer) :
  canvasesMatch r -> canvasesMatch (updateRendererScale r).
Proof.
  intros H. unfold updateRendererScale.
  destruct (Qlt_bool HIGH_FRAME_DURATION_MS (avgFrameDuration r)
            && (scaleStep r <? lastStep r)%Z);
    [|destruct (Qlt_bool (avgFrameDuration r) LOW_FRAME_DURATION_MS
                && (0 <? scaleStep r)%Z)];
    cbn [set_scaleStep scaleStep];
    match goal with
    | |- context [(?a =? ?b)%Z] => destruct (a =? b)%Z eqn:E
    end;
    try (apply Z.eqb_eq in E; lia); try exact H;
    unfold canvasesMatch in *;
    cbn [scenes set_scenes set_canvas3D set_avgFrameDuration set_scaleStep];
    apply Forall_map; revert H; apply Forall_impl; intros s Hs;
    unfold canvasSize, rendererSize in *;
    cbn [canvas set_isDirty set_canvas set_cv_style cv_width cv_height
         style_width style_height width height dpr] in *;
    injection Hs as -> -> _ _; reflexivity.
Qed.

Lemma canvasesMatch_render (dprNow t : Q) (frame : option XRFrame)
    (r : Renderer) :
  canvasesMatch r -> canvasesMatch (render dprNow t frame r).
Proof.
  intros H. unfold render. destruct frame as [f|]; [exact H|].
  match goal with |- context [if ?c then _ else _] => destruct c end;
    [exact H|].
  unfold renderFrame.
  set (r4 := updateRendererScale _).
  apply (canvasesMatch_sizes r4).
  { apply fold_left_view. intros; apply sizes_drawScene. }
  apply canvasesMatch_updateRendererScale, canvasesMatch_updateRendererSize.
  apply (canvasesMatch_sizes (set_lastTick t r)); [|exact H].
  now rewrite sizes_selectCanvas.
Qed.

Lemma canvasesMatch_registerScene (scene : ModelScene) (r : Renderer) :
  canvasesMatch r -> canvasesMatch (registerScene scene r).
Proof.
  unfold canvasesMatch, registerScene. intros H.
  cbn [scenes set_scenes]. unfold updateScene. apply Forall_map.
  assert (Hall : Forall
            (fun s => Nat.eqb (sceneId s) (sceneId scene) = false ->
                      canvasSize s = rendererSize r)
            (match lookupScene (sceneId scene) (scenes r) with
             | Some _ => scenes r
             | None => scenes r ++ [scene]
             end)).
  { destruct (lookupScene (sceneId scene) (scenes r)).
    - revert H. apply Forall_impl. auto.
    - apply Forall_app. split.
      + revert H. apply Forall_impl. auto.
      + repeat constructor. rewrite Nat.eqb_refl. discriminate. }
  revert Hall. apply Forall_impl. intros s Hs.
  destruct (Nat.eqb (sceneId s) (sceneId scene)).
  - destruct (multipleScenesVisible r); reflexivity.
  - now apply Hs.
Qed.

Lemma canvasesMatch_unregisterScene (scene : ModelScene) (r : Renderer) :
  canvasesMatch r -> canvasesMatch (unregisterScene scene r).
Proof.
  unfold canvasesMatch, unregisterScene. cbn [scenes set_scenes].
  rewrite !Forall_forall. intros H s Hs.
  apply filter_In in Hs as [Hs _]. now apply H.
Qed.

(** X3. From construction on, whatever the page does with the renderer
    (registering and unregistering scenes, setting the minimum scale,
    disposing, rendering any frames), every registered scene's canvas has
    the backing store [round(size * dpr)] and the CSS size
    [size / scaleFactor] of the renderer: "each scene's canvas must match
    the renderer size". *)
Theorem canvases_match_renderer (dprNow : Q) (webgl : bool)
    (ar : ARRenderer) (now : Q) (ops : list Operation) :
  canvasesMatch (fold_left perform ops (constructor dprNow webgl ar now)).
Proof.
  assert (Hinit : canvasesMatch (constructor dprNow webgl ar now)).
  { unfold constructor.
    apply (canvasesMatch_sizes
             (updateRendererSize dprNow
                (set_canRender webgl
                   (set_size 0 0 dprNow (initialFields ar)))));
      [reflexivity|].
    apply canvasesMatch_updateRendererSize. constructor. }
  revert Hinit. generalize (constructor dprNow webgl ar now).
  induction ops as [|o ops IH]; intros r H; [exact H|].
  cbn [fold_left]. apply IH.
  destruct o as [scene | scene | scale | | k]; cbn [perform].
  - now apply canvasesMatch_registerScene.
  - now apply canvasesMatch_unregisterScene.
  - exact H.
  - exact H.
  - now apply canvasesMatch_render.
Qed.

End CanvasSizes.

Section TwoSurfaces.

Context {host : Host}.

(** ** The resizer on a page with two surfaces *)

Lemma canvasesMatch_constructor (dprNow : Q) (webgl : bool)
    (ar : ARRenderer) (now : Q) :
  canvasesMatch (constructor dprNow webgl ar now).
Proof.
  unfold constructor.
  apply (canvasesMatch_sizes
           (updateRendererSize dprNow
              (set_canRender webgl
                 (set_size 0 0 dprNow (initialFields ar)))));
    [reflexivity|].
  apply canvasesMatch_updateRendererSize. constructor.
Qed.

Lemma canvasesMatch_perform (r : Renderer) (o : Operation) :
  canvasesMatch r -> canvasesMatch (perform r o).
Proof.
  intros H. destruct o as [scene | scene | scale | | k]; cbn [perform].
  - now apply canvasesMatch_registerScene.
  - now apply canvasesMatch_unregisterScene.
  - exact H.
  - exact H.
  - now apply canvasesMatch_render.
Qed.

Lemma bufferMatches_backingStore (r r' : Renderer) :
  backingStore r' = backingStore r -> bufferMatches r -> bufferMatches r'.
Proof.
  intros E. unfold bufferMatches.
  assert (E1 : canRender r' = canRender r)
    by exact (f_equal (fun v => fst (fst (fst (fst (fst v))))) E).
  assert (E2 : width r' = width r)
    by exact (f_equal (fun v => snd (fst (fst (fst (fst v))))) E).
  assert (E3 : height r' = height r)
    by exact (f_equal (fun v => snd (fst (fst (fst v)))) E).
  assert (E4 : dpr r' = dpr r)
    by exact (f_equal (fun v => snd (fst (fst v))) E).
  assert (E5 : buffer_width (canvas3D r') = buffer_width (canvas3D r))
    by exact (f_equal (fun v => snd (fst v)) E).
  assert (E6 : buffer_height (canvas3D r') = buffer_height (canvas3D r))
    by exact (f_equal snd E).
  rewrite E1, E2, E3, E4, E5, E6. auto.
Qed.

Lemma backingStore_selectCanvas (r : Renderer) :
  backingStore (selectCanvas r) = backingStore r.
Proof.
  unfold selectCanvas.
  destruct (last (map Some (visibleScenesOf (scenes r))) None) as [v|];
    [|reflexivity].
  match goal with |- context [if ?c then r else _] => destruct c end;
    [reflexivity|].
  rewrite fold_left_view.
  - destruct (1 <? length (visibleScenesOf (scenes r)))%nat; reflexivity.
  - intros acc s. destruct (externalRenderer s); [reflexivity|].
    destruct (1 <? length (visibleScenesOf (scenes r)))%nat;
      [reflexivity|].
    destruct (Nat.eqb (sceneId s) (sceneId v)); reflexivity.
Qed.

Lemma backingStore_drawScene (t delta : Q) (r : Renderer) (id : nat) :
  backingStore (drawScene t delta r id) = backingStore r.
Proof.
  unfold drawScene.
  destruct (lookupScene id (scenes r)) as [s|]; [|reflexivity].
  destruct (negb (modelIsVisible s) && (0 <? renderCount s)%Z);
    [reflexivity|].
  destruct (lookupScene id (scenes (preRender id t delta r))) as [s1|];
    [|reflexivity].
  destruct (negb (isDirty s1)); [reflexivity|].
  destruct (externalRenderer s1); [reflexivity|].
  destruct (negb (modelIsVisible s1)
            && negb (multipleScenesVisible (preRender id t delta r)));
    reflexivity.
Qed.

Lemma backingStore_updateRendererScale (r : Renderer) :
  backingStore (updateRendererScale r) = backingStore r.
Proof.
  unfold updateRendererScale.
  destruct (Qlt_bool HIGH_FRAME_DURATION_MS (avgFrameDuration r)
            && (scaleStep r <? lastStep r)%Z);
    [|destruct (Qlt_bool (avgFrameDuration r) LOW_FRAME_DURATION_MS
                && (0 <? scaleStep r)%Z)];
    cbn [set_scaleStep scaleStep];
    match goal with
    | |- context [(?a =? ?b)%Z] => destruct (a =? b)%Z
    end; reflexivity.
Qed.

Lemma bufferMatches_updateRendererSize (dprNow : Q) (r : Renderer) :
  bufferMatches r -> bufferMatches (updateRendererSize dprNow r).
Proof.
  intros H. unfold updateRendererSize.
  set (r1 := if negb (Qeq_bool dprNow (dpr r)) then _ else r).
  assert (H1 : bufferMatches r1).
  { unfold r1. destruct (negb (Qeq_bool dprNow (dpr r))); [|exact H].
    apply (bufferMatches_backingStore r); [reflexivity | exact H]. }
  match goal with |- context [if ?c then r1 else _] => destruct c end;
    [exact H1|].
  unfold bufferMatches. cbn [canRender set_size].
  destruct (canRender r1) eqn:Hc1.
  all: cbn [canRender set_scenes set_canvas3D set_size].
  all: rewrite Hc1.
  - intros _. right. split; reflexivity.
  - intros Hc. discriminate Hc.
Qed.

Lemma bufferMatches_render (dprNow t : Q) (frame : option XRFrame)
    (r : Renderer) :
  bufferMatches r -> bufferMatches (render dprNow t frame r).
Proof.
  intros H. unfold render. destruct frame as [f|]; [exact H|].
  match goal with |- context [if ?c then _ else _] => destruct c end;
    [exact H|].
  unfold renderFrame.
  set (r3 := updateRendererSize dprNow _).
  apply (bufferMatches_backingStore r3).
  { rewrite (fold_left_view backingStore)
      by (intros; apply backingStore_drawScene).
    apply backingStore_updateRendererScale. }
  apply bufferMatches_updateRendererSize.
  apply (bufferMatches_backingStore r); [|exact H].
  now rewrite backingStore_selectCanvas.
Qed.

Lemma bufferMatches_perform (r : Renderer) (o : Operation) :
  bufferMatches r -> bufferMatches (perform r o).
Proof.
  intros H. destruct o as [scene | scene | scale | | k]; cbn [perform].
  - exact H.
  - exact H.
  - exact H.
  - intros Hc. discriminate Hc.
  - now apply bufferMatches_render.
Qed.

Lemma bufferMatches_constructor (dprNow : Q) (webgl : bool)
    (ar : ARRenderer) (now : Q) :
  bufferMatches (constructor dprNow webgl ar now).
Proof.
  unfold constructor.
  apply (bufferMatches_backingStore
           (updateRendererSize dprNow
              (set_canRender webgl
                 (set_size 0 0 dprNow (initialFields ar)))));
    [reflexivity|].
  apply bufferMatches_updateRendererSize.
  intros _. left. split; reflexivity.
Qed.

(** Both invariants hold in every state the page can bring the renderer
    to. *)
Lemma sizes_after_operations (dprNow : Q) (webgl : bool) (ar : ARRenderer)
    (now : Q) (ops : list Operation) :
  let r := fold_left perform ops (constructor dprNow webgl ar now) in
  canvasesMatch r /\ bufferMatches r.
Proof.
  cbv zeta.
  pose proof (canvasesMatch_constructor dprNow webgl ar now) as Hc.
  pose proof (bufferMatches_constructor dprNow webgl ar now) as Hb.
  revert Hc Hb. generalize (constructor dprNow webgl ar now).
  induction ops as [|o ops IH]; intros r Hc Hb; [split; assumption|].
  cbn [fold_left]. apply IH.
  - now apply canvasesMatch_perform.
  - now apply bufferMatches_perform.
Qed.

(** C8, as the code has it.  In every state the page can bring the
    renderer to, with two registered surfaces of 800x600 and 400x300, a
    device pixel ratio of 2 and step 0, a run of the resizer leaves the
    WebGL canvas sized 1600x1200 and every surface's canvas with a backing
    store of 1600x1200 and a CSS size of 800x600: the union of the surfaces
    divided by the scale factor, for both of them.  This holds whether the
    run writes the sizes or returns early because an earlier run has
    written them. *)
Theorem resize_two_surfaces (dprNow : Q) (webgl : bool) (ar : ARRenderer)
    (now : Q) (ops : list Operation) (s1 s2 : ModelScene) :
  let r := fold_left perform ops (constructor dprNow webgl ar now) in
  scenes r = [s1; s2] ->
  scene_width s1 == 800 -> scene_height s1 == 600 ->
  scene_width s2 == 400 -> scene_height s2 == 300 ->
  dpr r == 2 -> scaleStep r = 0%Z -> canRender r = true ->
  let r' := updateRendererSize 2 r in
  buffer_width (canvas3D r') == 1600
  /\ buffer_height (canvas3D r') == 1200
  /\ map sceneId (scenes r') = [sceneId s1; sceneId s2]
  /\ Forall
       (fun s =>
          cv_width (canvas s) = 1600%Z /\ cv_height (canvas s) = 1200%Z
          /\ exists w h : Q,
               style_width (canvas s) = css_px w
               /\ style_height (canvas s) = css_px h
               /\ w == 800 /\ h == 600)
       (scenes r').
Proof.
  cbv zeta.
  destruct (sizes_after_operations dprNow webgl ar now ops) as [Hm Hb].
  revert Hm Hb.
  generalize (fold_left perform ops (constructor dprNow webgl ar now)).
  intros r Hm Hb Hsc Hw1 Hh1 Hw2 Hh2 Hdpr Hstep Hcan.
  unfold updateRendererSize.
  assert (Hd : Qeq_bool 2 (dpr r) = true)
    by (apply Qeq_eq_bool; symmetry; exact Hdpr).
  rewrite Hd. cbn [negb]. rewrite Hd, Hsc.
  set (W := maxWidth [s1; s2]). set (H := maxHeight [s1; s2]).
  assert (HW : W == 800).
  { unfold W, maxWidth. cbn [fold_left].
    rewrite (Q.max_r 0 (scene_width s1)) by lra.
    rewrite Q.max_l by lra. exact Hw1. }
  assert (HH : H == 600).
  { unfold H, maxHeight. cbn [fold_left].
    rewrite (Q.max_r 0 (scene_height s1)) by lra.
    rewrite Q.max_l by lra. exact Hh1. }
  assert (RW : forall x, x == 800 -> Math_round (x * 2) = 1600%Z)
    by (intros x Hx; apply Math_round_integer; rewrite Hx; reflexivity).
  assert (RH : forall x, x == 600 -> Math_round (x * 2) = 1200%Z)
    by (intros x Hx; apply Math_round_integer; rewrite Hx; reflexivity).
  destruct (Qeq_bool W (width r) && Qeq_bool H (height r) && true) eqn:Ec.
  - apply andb_true_iff in Ec as [Ec _].
    apply andb_true_iff in Ec as [E1 E2].
    apply Qeq_bool_iff in E1, E2.
    assert (Ew : width r == 800) by lra.
    assert (Eh : height r == 600) by lra.
    destruct (Hb Hcan) as [[Z1 _] | [B1 B2]]; [lra|].
    split; [rewrite B1, Ew, Hdpr; reflexivity|].
    split; [rewrite B2, Eh, Hdpr; reflexivity|].
    split; [rewrite Hsc; reflexivity|].
    revert Hm. unfold canvasesMatch. apply Forall_impl. intros s Hs.
    unfold canvasSize, rendererSize, scaleFactor in Hs. rewrite Hstep in Hs.
    cbn [Z.ltb Z.compare Z.to_nat nth_error SCALE_STEPS div_scale px] in Hs.
    injection Hs as -> -> -> ->.
    assert (Mw : Math_round (width r * dpr r) = 1600%Z)
      by (apply Math_round_integer; rewrite Ew, Hdpr; reflexivity).
    assert (Mh : Math_round (height r * dpr r) = 1200%Z)
      by (apply Math_round_integer; rewrite Eh, Hdpr; reflexivity).
    split; [exact Mw|]. split; [exact Mh|].
    exists (width r / 1), (height r / 1).
    split; [reflexivity|]. split; [reflexivity|].
    split; [rewrite Ew | rewrite Eh]; reflexivity.
  - cbn [canRender set_size]. rewrite Hcan.
    unfold scaleFactor.
    cbn [scaleStep set_canvas3D set_size canvas3D scenes set_scenes setSize
         buffer_width buffer_height set_c3d_style].
    rewrite Hstep, Hsc. cbn [Z.ltb Z.compare Z.to_nat nth_error SCALE_STEPS
                             div_scale px map].
    split; [rewrite HW; reflexivity|].
    split; [rewrite HH; reflexivity|].
    split; [reflexivity|].
    repeat constructor; cbn; try (apply RW; exact HW);
      try (apply RH; exact HH);
      exists (W / 1), (H / 1);
      (repeat split; [rewrite HW | rewrite HH]; reflexivity).
Qed.

End TwoSurfaces.

(** The page with two viewers, one frame after they were registered: the
    resizer returns early there. *)
Lemma resize_two_surfaces_page :
  scenes renderedPage = [renderedA; renderedB]
  /\ (width renderedPage == 800 /\ height renderedPage == 600)
  /\ buffer_width (canvas3D (updateRendererSize 2 renderedPage)) == 1600
  /\ buffer_height (canvas3D (updateRendererSize 2 renderedPage)) == 1200
  /\ map (fun s => (cv_width (canvas s), cv_height (canvas s)))
       (scenes (updateRendererSize 2 renderedPage))
     = [(1600%Z, 1200%Z); (1600%Z, 1200%Z)].
Proof.
  unfold renderedPage.
  assert (Hs : scenes
                 (fold_left perform pageOperations
                    (@constructor idleHost 2 true tt 0))
               = [renderedA; renderedB])
    by (vm_compute; reflexivity).
  split; [exact Hs|]. split; [split; vm_compute; reflexivity|].
  destruct (@resize_two_surfaces idleHost 2 true tt 0 pageOperations
              renderedA renderedB Hs) as (Hw & Hh & _);
    try (vm_compute; reflexivity).
  split; [exact Hw|]. split; [exact Hh|]. vm_compute. reflexivity.
Defined.


Section Resizer.

Context {host : Host}.

(** ** The size of the largest scene *)

Lemma fold_Qmax_spec (f : ModelScene -> Q) (l : list ModelScene) :
  forall a : Q,
    let m := fold_left (fun w s => Qmax w (f s)) l a in
    a <= m
    /\ Forall (fun s => f s <= m) l
    /\ (m == a \/ exists s, In s l /\ f s == m).
Proof.
  induction l as [|x l IH]; intros a; cbn [fold_left].
  - split; [lra|]. split; [constructor | left; reflexivity].
  - destruct (IH (Qmax a (f x))) as (Hge & Hall & Hatt).
    set (m := fold_left (fun w s => Qmax w (f s)) l (Qmax a (f x))) in *.
    pose proof (Q.le_max_l a (f x)) as Hl.
    pose proof (Q.le_max_r a (f x)) as Hr.
    split; [lra|]. split.
    + constructor; [lra | exact Hall].
    + destruct Hatt as [E | (s & Hin & E)].
      * destruct (Q.max_spec a (f x)) as [[_ Em] | [_ Em]].
        -- right. exists x. split; [now left | lra].
        -- left. lra.
      * right. exists s. split; [now right | exact E].
Qed.


(** X4. After the resizer has run, the renderer's size is the size of the
    largest scene: no scene is wider or higher than the renderer, the size
    is not negative, and each dimension is 0 or that of some registered
    scene. *)
Theorem renderer_is_largest_scene (dprNow : Q) (r : Renderer) :
  let r' := updateRendererSize dprNow r in
  Forall (fun s => scene_width s <= width r'
                   /\ scene_height s <= height r') (scenes r')
  /\ 0 <= width r' /\ 0 <= height r'
  /\ (width r' == 0
      \/ exists s, In s (scenes r') /\ scene_width s == width r')
  /\ (height r' == 0
      \/ exists s, In s (scenes r') /\ scene_height s == height r').
Proof.
  cbv zeta. unfold updateRendererSize.
  set (r1 := if negb (Qeq_bool dprNow (dpr r)) then _ else r).
  destruct (fold_Qmax_spec scene_width (scenes r1) 0) as (W0 & Wall & Watt).
  destruct (fold_Qmax_spec scene_height (scenes r1) 0) as (H0 & Hall & Hatt).
  fold (maxWidth (scenes r1)) in *. fold (maxHeight (scenes r1)) in *.
  assert (Hboth : Forall (fun s => scene_width s <= maxWidth (scenes r1)
                                   /\ scene_height s <= maxHeight (scenes r1))
                    (scenes r1)).
  { rewrite Forall_forall in *. intros s Hs. split; auto. }
  destruct (Qeq_bool (maxWidth (scenes r1)) (width r1)
            && Qeq_bool (maxHeight (scenes r1)) (height r1)
            && Qeq_bool dprNow (dpr r1)) eqn:E.
  - apply andb_true_iff in E as [E _].
    apply andb_true_iff in E as [Ew Eh].
    apply Qeq_bool_iff in Ew, Eh.
    split; [|split; [lra | split; [lra | split]]].
    + revert Hboth. apply Forall_impl. intros s [? ?]. split; lra.
    + destruct Watt as [Z | (s & Hin & Es)];
        [left; lra | right; exists s; split; [assumption | lra]].
    + destruct Hatt as [Z | (s & Hin & Es)];
        [left; lra | right; exists s; split; [assumption | lra]].
  - cbn [canRender set_size].
    set (g := fun s : ModelScene => set_isDirty true _).
    assert (Hsc : forall c, scenes
              (set_scenes (map g (scenes r1)) c) = map g (scenes r1))
      by reflexivity.
    destruct (canRender r1);
      cbn [scenes set_scenes set_canvas3D width height];
      (split; [|split; [exact W0 | split; [exact H0 | split]]]);
      try (apply Forall_map; revert Hboth; apply Forall_impl;
           intros s Hs; exact Hs);
      try (destruct Watt as [Z | (s & Hin & Es)];
           [left; exact Z
           | right; exists (g s); split; [now apply in_map | exact Es]]);
      try (destruct Hatt as [Z | (s & Hin & Es)];
           [left; exact Z
           | right; exists (g s); split; [now apply in_map | exact Es]]).
Qed.


End Resizer.

Section Hysteresis.

Context {host : Host}.

(** ** Runs on one side of a threshold *)

(** One callback from an average of at least 18 ms whose duration, if it
    computes one, is at least 18 ms. *)
Lemma render_not_faster (k : Tick) (r : Renderer) :
  18 <= avgFrameDuration r ->
  Forall (fun d => 18 <= d) (deltas [k] r) ->
  (scaleStep r <= scaleStep (renderTick r k))%Z
  /\ 18 <= avgFrameDuration (renderTick r k).
Proof.
  intros Ha Hd. unfold renderTick.
  destruct (render_cases (tick_dpr k) (tick_time k) (tick_frame k) r)
    as [(Ea & Es & _) | (Ef & _ & _ & E)].
  - rewrite Ea, Es. split; [lia | exact Ha].
  - cbn [deltas] in Hd. rewrite Ef in Hd. apply Forall_inv in Hd.
    apply controller_eq in E as (Ea & Es & _). rewrite Ea, Es.
    set (r1 := updateAvgFrameDuration (tick_time k - lastTick r)
                 (set_lastTick (tick_time k) r)).
    pose proof (estimator_step (avgFrameDuration r)
                  (tick_time k - lastTick r)) as (_ & Hup & Hdown).
    assert (H1 : 18 <= avgFrameDuration r1).
    { change (avgFrameDuration r1)
        with (avgFrameDuration r
              + clamp (DURATION_DECAY
                       * (tick_time k - lastTick r - avgFrameDuration r))
                  (- MAX_AVG_CHANGE_MS) MAX_AVG_CHANGE_MS).
      destruct (Qlt_le_dec (tick_time k - lastTick r) (avgFrameDuration r))
        as [Hlt | Hge].
      - specialize (Hdown (Qlt_le_weak _ _ Hlt)). lra.
      - specialize (Hup Hge). lra. }
    rewrite avgFrameDuration_updateRendererScale.
    change (scaleStep r) with (scaleStep r1).
    destruct (updateRendererScale_cases r1)
      as [[_ E1] | [(_ & [D _] & _) | (_ & _ & E1)]].
    + rewrite E1. split; [lia|].
      replace (scaleStep r1 =? scaleStep r1 + 1)%Z with false
        by (symmetry; apply Z.eqb_neq; lia).
      change midpoint with (44 # 2). lra.
    + unfold LOW_FRAME_DURATION_MS in D. lra.
    + rewrite E1, Z.eqb_refl. split; [lia | exact H1].
Qed.

(** One callback from an average of at most 26 ms whose duration, if it
    computes one, is at most 26 ms. *)
Lemma render_not_slower (k : Tick) (r : Renderer) :
  avgFrameDuration r <= 26 ->
  Forall (fun d => d <= 26) (deltas [k] r) ->
  (scaleStep (renderTick r k) <= scaleStep r)%Z
  /\ avgFrameDuration (renderTick r k) <= 26.
Proof.
  intros Ha Hd. unfold renderTick.
  destruct (render_cases (tick_dpr k) (tick_time k) (tick_frame k) r)
    as [(Ea & Es & _) | (Ef & _ & _ & E)].
  - rewrite Ea, Es. split; [lia | exact Ha].
  - cbn [deltas] in Hd. rewrite Ef in Hd. apply Forall_inv in Hd.
    apply controller_eq in E as (Ea & Es & _). rewrite Ea, Es.
    set (r1 := updateAvgFrameDuration (tick_time k - lastTick r)
                 (set_lastTick (tick_time k) r)).
    pose proof (estimator_step (avgFrameDuration r)
                  (tick_time k - lastTick r)) as (_ & Hup & Hdown).
    assert (H1 : avgFrameDuration r1 <= 26).
    { change (avgFrameDuration r1)
        with (avgFrameDuration r
              + clamp (DURATION_DECAY
                       * (tick_time k - lastTick r - avgFrameDuration r))
                  (- MAX_AVG_CHANGE_MS) MAX_AVG_CHANGE_MS).
      destruct (Qlt_le_dec (tick_time k - lastTick r) (avgFrameDuration r))
        as [Hlt | Hge].
      - specialize (Hdown (Qlt_le_weak _ _ Hlt)). lra.
      - specialize (Hup Hge). lra. }
    rewrite avgFrameDuration_updateRendererScale.
    change (scaleStep r) with (scaleStep r1).
    destruct (updateRendererScale_cases r1)
      as [[[U _] _] | [(_ & _ & E1) | (_ & _ & E1)]].
    + unfold HIGH_FRAME_DURATION_MS in U. lra.
    + rewrite E1. split; [lia|].
      replace (scaleStep r1 =? scaleStep r1 - 1)%Z with false
        by (symmetry; apply Z.eqb_neq; lia).
      change midpoint with (44 # 2). lra.
    + rewrite E1, Z.eqb_refl. split; [lia | exact H1].
Qed.

Lemma deltas_cons (k : Tick) (ticks : list Tick) (r : Renderer) :
  deltas (k :: ticks) r = deltas [k] r ++ deltas ticks (renderTick r k).
Proof. cbn [deltas]. destruct (tick_frame k); reflexivity. Qed.

(** X6. While no frame is shorter than 18 ms, starting from an average of
    at least 18 ms, the renderer never raises the resolution: over the
    whole run [scaleStep] does not decrease, and the average stays at or
    above 18 ms. *)
Theorem slow_frames_never_restore (ticks : list Tick) (r : Renderer) :
  18 <= avgFrameDuration r ->
  Forall (fun d => 18 <= d) (deltas ticks r) ->
  (scaleStep r <= scaleStep (run ticks r))%Z
  /\ 18 <= avgFrameDuration (run ticks r).
Proof.
  revert r. induction ticks as [|k ticks IH]; intros r Ha Hd.
  - cbn. split; [lia | exact Ha].
  - rewrite deltas_cons in Hd. apply Forall_app in Hd as [Hk Hrest].
    destruct (render_not_faster k r Ha Hk) as [Hs Ha'].
    cbn [run fold_left]. fold (run ticks (renderTick r k)).
    destruct (IH _ Ha' Hrest) as [Hs' Ha'']. split; [lia | exact Ha''].
Qed.

(** X7. While no frame is longer than 26 ms, starting from an average of
    at most 26 ms, the renderer never lowers the resolution: over the
    whole run [scaleStep] does not increase, and the average stays at or
    below 26 ms. *)
Theorem fast_frames_never_reduce (ticks : list Tick) (r : Renderer) :
  avgFrameDuration r <= 26 ->
  Forall (fun d => d <= 26) (deltas ticks r) ->
  (scaleStep (run ticks r) <= scaleStep r)%Z
  /\ avgFrameDuration (run ticks r) <= 26.
Proof.
  revert r. induction ticks as [|k ticks IH]; intros r Ha Hd.
  - cbn. split; [lia | exact Ha].
  - rewrite deltas_cons in Hd. apply Forall_app in Hd as [Hk Hrest].
    destruct (render_not_slower k r Ha Hk) as [Hs Ha'].
    cbn [run fold_left]. fold (run ticks (renderTick r k)).
    destruct (IH _ Ha' Hrest) as [Hs' Ha'']. split; [lia | exact Ha''].
Qed.

End Hysteresis.

Section MinimumScale.

Context {host : Host}.

(** ** The step limit as a function of the minimum scale *)

Lemma minScale_loop_range (scale : Q) (rest : list Q) (i : Z) :
  (i <= minScale_loop rest i scale <= i + Z.of_nat (length rest))%Z.
Proof. apply (minScale_loop_spec scale rest i). Qed.

Lemma minScale_loop_antitone (m1 m2 : Q) (rest : list Q) :
  m1 <= m2 ->
  forall i : Z,
    (minScale_loop rest i m2 <= minScale_loop rest i m1)%Z.
Proof.
  intros Hm. induction rest as [|s rest IH]; intros i; cbn [minScale_loop].
  - lia.
  - destruct (Qlt_bool s m1) eqn:E1; destruct (Qlt_bool s m2) eqn:E2.
    + lia.
    + apply Qlt_bool_iff in E1. apply Qlt_bool_false_iff in E2. lra.
    + pose proof (minScale_loop_range m1 rest (i + 1)). lia.
    + apply IH.
Qed.

(** X8. Whatever number is given as minimum scale, also one outside (0, 1],
    the setter leaves [lastStep] inside the scale table, and a larger
    minimum never allows more steps than a smaller one.  Every minimum
    above 0.79 forbids scaling altogether, every minimum up to 0.25 allows
    all six steps. *)
Theorem minScale_range_and_order (m1 m2 : Q) (r : Renderer) :
  let last1 := lastStep (set_minScale m1 r) in
  let last2 := lastStep (set_minScale m2 r) in
  (0 <= last1 <= Z.of_nat (length SCALE_STEPS) - 1)%Z
  /\ (m1 <= m2 -> (last2 <= last1)%Z)
  /\ (0.79 < m1 -> last1 = 0%Z)
  /\ (m1 <= 0.25 -> last1 = 6%Z).
Proof.
  cbv zeta. unfold set_minScale. cbn [lastStep set_lastStep].
  pose proof (minScale_loop_range m1 (skipn 1 SCALE_STEPS) 1) as Hr.
  change (Z.of_nat (length (skipn 1 SCALE_STEPS))) with 6%Z in Hr.
  change (Z.of_nat (length SCALE_STEPS)) with 7%Z.
  split; [lia|]. split; [|split].
  - intros Hm.
    pose proof (minScale_loop_antitone m1 m2 (skipn 1 SCALE_STEPS) Hm 1).
    lia.
  - intros Hm. cbn [skipn SCALE_STEPS minScale_loop].
    replace (Qlt_bool 0.79 m1) with true
      by (symmetry; now apply Qlt_bool_iff).
    reflexivity.
  - intros Hm. cbn [skipn SCALE_STEPS minScale_loop].
    repeat match goal with
           | |- context [Qlt_bool ?s m1] =>
               replace (Qlt_bool s m1) with false
                 by (symmetry; apply Qlt_bool_false_iff; lra)
           end.
    reflexivity.
Qed.

End MinimumScale.

Section Disposal.

Context {host : Host}.

(** ** A renderer without WebGL *)

Lemma run_without_webgl (ticks : list Tick) :
  forall r : Renderer,
    canRender r = false ->
    run ticks r
    = set_arRenderer (arRenderer (run ticks r))
        (set_lastTick (lastTick (run ticks r)) r).
Proof.
  induction ticks as [|k ticks IH]; intros r Hc.
  - destruct r; reflexivity.
  - cbn [run fold_left]. fold (run ticks (renderTick r k)).
    assert (Hk : renderTick r k
                 = set_arRenderer (arRenderer (renderTick r k))
                     (set_lastTick (lastTick (renderTick r k)) r)).
    { unfold renderTick, render. destruct (tick_frame k) as [f|].
      - destruct r; reflexivity.
      - cbn [canRender set_lastTick]. rewrite Hc. cbn [negb orb].
        destruct r; reflexivity. }
    assert (Hc' : canRender (renderTick r k) = false)
      by (rewrite Hk; exact Hc).
    rewrite (IH _ Hc') at 1. rewrite Hk at 3.
    destruct r; reflexivity.
Qed.

(** X9. [dispose] returns the elements of the registered scenes and keeps
    the scenes registered; afterwards no callback renders: whatever frames
    arrive, only the frame timer and the AR renderer's own state can
    change, while average, step, sizes, canvases and scenes stay as they
    were. *)
Theorem disposed_renderer_is_inert (r : Renderer) (ticks : list Tick) :
  let r' := snd (dispose r) in
  fst (dispose r) = map sceneId (scenes r)
  /\ scenes r' = scenes r
  /\ canRender (run ticks r') = false
  /\ run ticks r'
     = set_arRenderer (arRenderer (run ticks r'))
         (set_lastTick (lastTick (run ticks r')) r').
Proof.
  cbv zeta. cbn [dispose fst snd].
  pose proof (run_without_webgl ticks (set_canRender false r) eq_refl) as H.
  split; [reflexivity|]. split; [reflexivity|]. split; [|exact H].
  rewrite H. reflexivity.
Qed.

End Disposal.

Section CanvasSelection.

Context {host : Host}.

(** ** The canvas on display *)

Lemma NoDup_ids_unique (l : list ModelScene) (s v : ModelScene) :
  NoDup (map sceneId l) -> In s l -> In v l -> sceneId s = sceneId v ->
  s = v.
Proof.
  induction l as [|a l IH]; [contradiction|].
  cbn [map]. intros Hnd Hs Hv Hid.
  inversion Hnd as [|? ? Hnot Hnd']; subst.
  destruct Hs as [-> | Hs]; destruct Hv as [Hv | Hv].
  - exact Hv.
  - exfalso. apply Hnot. rewrite Hid. now apply in_map.
  - subst. exfalso. apply Hnot. rewrite <- Hid. now apply in_map.
  - now apply IH.
Qed.

Lemma last_Some_In (l : list ModelScene) (v : ModelScene) :
  last (map Some l) None = Some v -> In v l.
Proof.
  induction l as [|a l IH]; cbn [map last]; [discriminate|].
  destruct l as [|b l].
  - cbn. intros [= ->]. now left.
  - intros H. right. apply IH. exact H.
Qed.

Lemma last_Some_nonempty (l : list ModelScene) :
  l <> [] -> exists v, last (map Some l) None = Some v.
Proof.
  induction l as [|a l IH]; [congruence|]. intros _.
  destruct l as [|b l]; [exists a; reflexivity|].
  destruct IH as [v Hv]; [discriminate|]. exists v. exact Hv.
Qed.

(** The second loop of [selectCanvas] for a single visible scene [v]:
    once it has passed [v], the WebGL canvas hangs in [v]'s container. *)
Lemma attach_loop (v : ModelScene) (l : list ModelScene) :
  externalRenderer v = false ->
  (forall s, In s l -> sceneId s = sceneId v -> s = v) ->
  forall acc : Renderer,
    c3d_parentElement (canvas3D acc) = Some (parentElement (canvas v))
    \/ In v l ->
    c3d_parentElement
      (canvas3D
         (fold_left
            (fun acc s =>
               if externalRenderer s then acc
               else if false then
                 set_scenes
                   (updateScene (sceneId s)
                      (fun s' =>
                         set_isDirty true
                           (set_canvas (set_cv_show true (canvas s')) s'))
                      (scenes acc)) acc
               else if Nat.eqb (sceneId s) (sceneId v) then
                 let acc1 :=
                   set_canvas3D
                     (set_c3d_show true
                        (set_c3d_parentElement
                           (Some (parentElement (canvas s)))
                           (canvas3D acc))) acc in
                 set_scenes
                   (updateScene (sceneId s)
                      (fun s' =>
                         set_isDirty true
                           (set_canvas (set_cv_show false (canvas s')) s'))
                      (scenes acc1)) acc1
               else acc)
            l acc))
    = Some (parentElement (canvas v)).
Proof.
  intros Hext. induction l as [|s l IH]; intros Huniq acc Hacc.
  - cbn. destruct Hacc as [H | []]. exact H.
  - cbn [fold_left]. apply IH.
    + intros s0 Hs0. apply Huniq. now right.
    + destruct (Nat.eqb (sceneId s) (sceneId v)) eqn:E.
      * apply Nat.eqb_eq in E.
        assert (s = v) as -> by (apply Huniq; [now left | exact E]).
        rewrite Hext. left. reflexivity.
      * destruct Hacc as [H | [-> | H]].
        -- left. destruct (externalRenderer s); exact H.
        -- rewrite Nat.eqb_refl in E. discriminate.
        -- now right.
Qed.

(** X10. After [selectCanvas], when some scene is visible and drawn by
    three.js, [multipleScenesVisible] tells whether there is more than one
    such scene; with none the renderer is left alone; and with exactly one,
    in a registry of distinct scenes, the WebGL canvas hangs in the
    container of that scene's canvas. *)
Theorem selectCanvas_mode (r : Renderer) :
  let visible := visibleScenesOf (scenes r) in
  let r' := selectCanvas r in
  (visible = [] -> r' = r)
  /\ (visible <> [] ->
      multipleScenesVisible r' = (1 <? length visible)%nat)
  /\ (forall v, visible = [v] -> NoDup (map sceneId (scenes r)) ->
        c3d_parentElement (canvas3D r')
        = Some (parentElement (canvas v))).
Proof.
  cbv zeta. unfold selectCanvas.
  split; [|split].
  - intros ->. reflexivity.
  - intros Hne. destruct (last_Some_nonempty _ Hne) as [v ->].
    destruct (Bool.eqb (1 <? length (visibleScenesOf (scenes r)))%nat
                (multipleScenesVisible r)) eqn:E.
    + apply Bool.eqb_prop in E.
      match goal with |- context [if ?c then r else _] => destruct c end;
        [now symmetry|].
      rewrite (fold_left_view multipleScenesVisible).
      * destruct (1 <? length (visibleScenesOf (scenes r)))%nat; reflexivity.
      * intros acc s. destruct (externalRenderer s); [reflexivity|].
        destruct (1 <? length (visibleScenesOf (scenes r)))%nat;
          [reflexivity|].
        destruct (Nat.eqb (sceneId s) (sceneId v)); reflexivity.
    + cbn [andb].
      rewrite (fold_left_view multipleScenesVisible).
      * destruct (1 <? length (visibleScenesOf (scenes r)))%nat; reflexivity.
      * intros acc s. destruct (externalRenderer s); [reflexivity|].
        destruct (1 <? length (visibleScenesOf (scenes r)))%nat;
          [reflexivity|].
        destruct (Nat.eqb (sceneId s) (sceneId v)); reflexivity.
  - intros v Hv Hnd. rewrite Hv. cbn [map last length Nat.ltb Nat.leb].
    assert (Hin : In v (scenes r)
                  /\ modelIsVisible v && negb (externalRenderer v) = true).
    { apply (filter_In
               (fun s => modelIsVisible s && negb (externalRenderer s))).
      unfold visibleScenesOf in Hv. rewrite Hv. now left. }
    destruct Hin as [Hin Hvis].
    apply andb_true_iff in Hvis as [_ Hext].
    apply negb_true_iff in Hext.
    match goal with |- context [if ?c then r else _] => destruct c eqn:E end.
    + apply andb_true_iff in E as [_ E]. cbn [orb] in E.
      destruct (c3d_parentElement (canvas3D r)) as [p|]; [|discriminate].
      apply Nat.eqb_eq in E. now subst.
    + apply attach_loop; [exact Hext | | right; exact Hin].
      intros s Hs Hid. exact (NoDup_ids_unique _ s v Hnd Hs Hin Hid).
Qed.

End CanvasSelection.

Section DrawingLoop.

Context {host : Host}.

(** ** What a frame leaves drawn *)

Lemma sceneKind_updateScene (id : nat) (f : ModelScene -> ModelScene)
    (l : list ModelScene) :
  (forall s, sceneKind (f s) = sceneKind s) ->
  map sceneKind (updateScene id f l) = map sceneKind l.
Proof.
  intros Hf. unfold updateScene. rewrite map_map. apply map_ext.
  intros s. destruct (Nat.eqb (sceneId s) id); [apply Hf | reflexivity].
Qed.

Lemma lookupScene_updateScene (id : nat) (f : ModelScene -> ModelScene)
    (l : list ModelScene) :
  (forall s, sceneId (f s) = sceneId s) ->
  lookupScene id (updateScene id f l)
  = option_map f (lookupScene id l).
Proof.
  intros Hf. unfold lookupScene, updateScene.
  induction l as [|s l IH]; cbn; [reflexivity|].
  destruct (Nat.eqb (sceneId s) id) eqn:E.
  - rewrite Hf, E. reflexivity.
  - rewrite E. exact IH.
Qed.

Lemma lookupScene_Some (id : nat) (l : list ModelScene) (s : ModelScene) :
  lookupScene id l = Some s -> In s l /\ sceneId s = id.
Proof.
  unfold lookupScene. intros H. apply find_some in H as [Hin E].
  apply Nat.eqb_eq in E. now split.
Qed.

Lemma kinds_ids (l l' : list ModelScene) :
  map sceneKind l' = map sceneKind l -> map sceneId l' = map sceneId l.
Proof.
  intros H.
  assert (E : forall k : list ModelScene,
             map sceneId k = map (fun c => fst (fst c)) (map sceneKind k)).
  { intros k. rewrite map_map. reflexivity. }
  now rewrite !E, H.
Qed.

Lemma sceneKind_tickScene (t delta : Q) (s : ModelScene) :
  sceneKind (tickScene t delta s) = sceneKind s.
Proof. unfold tickScene. destruct (elementTick t delta s); reflexivity. Qed.

Lemma sceneKind_finishScene (multiple : bool) (s : ModelScene) :
  sceneKind (finishScene multiple s) = sceneKind s
  /\ isDirty (finishScene multiple s) = false.
Proof.
  unfold finishScene.
  destruct (multiple && negb (hasContext s)); cbn [loaded set_isDirty
    set_hasContext]; destruct (loaded s); split; reflexivity.
Qed.

Lemma kinds_drawScene (t delta : Q) (r : Renderer) (id : nat) :
  map sceneKind (scenes (drawScene t delta r id))
  = map sceneKind (scenes r).
Proof.
  unfold drawScene.
  destruct (lookupScene id (scenes r)) as [s|]; [|reflexivity].
  destruct (negb (modelIsVisible s) && (0 <? renderCount s)%Z);
    [reflexivity|].
  assert (Hpre : map sceneKind (scenes (preRender id t delta r))
                 = map sceneKind (scenes r)).
  { apply sceneKind_updateScene. apply sceneKind_tickScene. }
  destruct (lookupScene id (scenes (preRender id t delta r))) as [s1|];
    [|exact Hpre].
  destruct (negb (isDirty s1)); [exact Hpre|].
  destruct (externalRenderer s1); [exact Hpre|].
  rewrite <- Hpre. set (r1 := preRender id t delta r).
  cbn [scenes set_scenes].
  rewrite sceneKind_updateScene
    by (intros s0; apply (sceneKind_finishScene _ s0)).
  destruct (negb (modelIsVisible s1) && negb (multipleScenesVisible r1));
    [|reflexivity].
  cbn [scenes set_scenes]. rewrite map_map. apply map_ext.
  intros s0. destruct (modelIsVisible s0); reflexivity.
Qed.

Lemma updateScene_twice (id : nat) (f g : ModelScene -> ModelScene)
    (l : list ModelScene) :
  (forall s, sceneId (g s) = sceneId s) ->
  updateScene id f (updateScene id g l)
  = updateScene id (fun s => f (g s)) l.
Proof.
  intros Hg. unfold updateScene. rewrite map_map. apply map_ext.
  intros s. destruct (Nat.eqb (sceneId s) id) eqn:E.
  - now rewrite Hg, E.
  - now rewrite E.
Qed.

(** An iteration for a visible scene [s0] rewrites that scene only, and
    leaves it clean unless an external renderer draws it. *)
Lemma drawScene_visible_shape (t delta : Q) (r : Renderer) (id : nat)
    (s0 : ModelScene) :
  lookupScene id (scenes r) = Some s0 -> modelIsVisible s0 = true ->
  exists h : ModelScene -> ModelScene,
    scenes (drawScene t delta r id) = updateScene id h (scenes r)
    /\ sceneKind (h s0) = sceneKind s0
    /\ (externalRenderer s0 = false -> isDirty (h s0) = false).
Proof.
  intros Hlook Hvis. unfold drawScene. rewrite Hlook, Hvis. cbn [negb andb].
  unfold preRender at 1. cbn [scenes set_scenes].
  fold (tickScene t delta).
  rewrite lookupScene_updateScene
    by (intros s; unfold tickScene;
        destruct (elementTick t delta s); reflexivity).
  rewrite Hlook. cbn [option_map].
  pose proof (sceneKind_tickScene t delta s0) as Hk.
  assert (Hv1 : modelIsVisible (tickScene t delta s0) = true).
  { injection Hk as _ Hv _. congruence. }
  assert (He1 : externalRenderer (tickScene t delta s0)
                = externalRenderer s0).
  { injection Hk as _ _ He. exact He. }
  destruct (isDirty (tickScene t delta s0)) eqn:Hd; cbn [negb].
  - rewrite He1. destruct (externalRenderer s0) eqn:He.
    + exists (tickScene t delta). unfold preRender. cbn [scenes set_scenes].
      fold (tickScene t delta).
      split; [reflexivity|]. split; [exact Hk | discriminate].
    + rewrite Hv1. cbn [negb andb]. unfold preRender.
      cbn [scenes set_scenes multipleScenesVisible].
      fold (tickScene t delta).
      fold (finishScene (multipleScenesVisible r)).
      rewrite updateScene_twice
        by (intros s; unfold tickScene;
            destruct (elementTick t delta s); reflexivity).
      exists (fun s => finishScene (multipleScenesVisible r)
                         (tickScene t delta s)).
      split; [reflexivity|].
      destruct (sceneKind_finishScene (multipleScenesVisible r)
                  (tickScene t delta s0)) as [Hk2 Hd2].
      split; [now rewrite Hk2 | intros _; exact Hd2].
  - exists (tickScene t delta). unfold preRender. cbn [scenes set_scenes].
    fold (tickScene t delta).
    split; [reflexivity|]. split; [exact Hk | intros _; exact Hd].
Qed.

Lemma drawn_weaken (done done' : list nat) (l : list ModelScene) :
  (forall x, In x done' -> In x done) -> drawn done l -> drawn done' l.
Proof.
  intros Hsub. unfold drawn. apply Forall_impl. intros s H Hin. auto.
Qed.

Lemma drawScene_visible (t delta : Q) (r : Renderer) (id : nat)
    (done : list nat) :
  NoDup (map sceneId (scenes r)) ->
  (forall s, In s (scenes r) -> sceneId s = id -> modelIsVisible s = true) ->
  drawn done (scenes r) ->
  drawn (id :: done) (scenes (drawScene t delta r id)).
Proof.
  intros Hnd Hvis Hdone.
  destruct (lookupScene id (scenes r)) as [s0|] eqn:Hlook.
  - destruct (lookupScene_Some _ _ _ Hlook) as [Hin0 Hid0].
    destruct (drawScene_visible_shape t delta r id s0 Hlook
                (Hvis s0 Hin0 Hid0)) as (h & -> & Hk & Hclean).
    unfold drawn in *. unfold updateScene. apply Forall_map.
    rewrite Forall_forall in *. intros s Hs.
    destruct (Nat.eqb (sceneId s) id) eqn:E.
    + apply Nat.eqb_eq in E.
      assert (s = s0) as ->
        by (apply (NoDup_ids_unique (scenes r)); congruence).
      intros _ _ Hext. apply Hclean.
      injection Hk as _ _ He. congruence.
    + apply Nat.eqb_neq in E. intros [Heq | Hin]; [congruence|].
      now apply Hdone.
  - unfold drawScene. rewrite Hlook.
    apply lookupScene_None in Hlook.
    unfold drawn in *. rewrite Forall_forall in *. intros s Hs [Heq | Hin].
    + exfalso. apply Hlook. rewrite Heq. now apply in_map.
    + now apply Hdone.
Qed.

Lemma kinds_visible (l l' : list ModelScene) (ids : list nat) :
  map sceneKind l' = map sceneKind l ->
  (forall s, In s l -> In (sceneId s) ids -> modelIsVisible s = true) ->
  forall s, In s l' -> In (sceneId s) ids -> modelIsVisible s = true.
Proof.
  intros Hk H s Hs Hid.
  assert (Hin : In (sceneKind s) (map sceneKind l))
    by (rewrite <- Hk; now apply in_map).
  apply in_map_iff in Hin as (s1 & E & Hs1).
  injection E as Ei Ev _. rewrite <- Ev. apply H; [exact Hs1 | congruence].
Qed.

Lemma draw_visible_loop (t delta : Q) (shown : list nat) :
  forall (r : Renderer) (done : list nat),
    NoDup (map sceneId (scenes r)) ->
    (forall s, In s (scenes r) -> In (sceneId s) shown ->
               modelIsVisible s = true) ->
    drawn done (scenes r) ->
    drawn (shown ++ done)
      (scenes (fold_left (drawScene t delta) shown r)).
Proof.
  induction shown as [|id shown IH]; intros r done Hnd Hvis Hdone;
    [exact Hdone|].
  cbn [fold_left].
  pose proof (kinds_drawScene t delta r id) as Hk.
  apply (drawn_weaken (shown ++ id :: done)).
  { intros x Hx. apply in_or_app. cbn in Hx.
    destruct Hx as [<- | Hx]; [right; now left|].
    apply in_app_or in Hx as [Hx | Hx]; [now left | right; now right]. }
  apply IH.
  - now rewrite (kinds_ids _ _ Hk).
  - apply (kinds_visible (scenes r)); [exact Hk|].
    intros s Hs Hin. apply Hvis; [exact Hs | now right].
  - apply drawScene_visible; [exact Hnd | | exact Hdone].
    intros s Hs Hid. apply Hvis; [exact Hs | left; congruence].
Qed.

Lemma kinds_set_scenes_map (g : ModelScene -> ModelScene) (r : Renderer) :
  (forall s, sceneKind (g s) = sceneKind s) ->
  map sceneKind (map g (scenes r)) = map sceneKind (scenes r).
Proof. intros Hg. rewrite map_map. apply map_ext. exact Hg. Qed.

Lemma kinds_selectCanvas (r : Renderer) :
  map sceneKind (scenes (selectCanvas r)) = map sceneKind (scenes r).
Proof.
  unfold selectCanvas.
  destruct (last (map Some (visibleScenesOf (scenes r))) None) as [v|];
    [|reflexivity].
  match goal with |- context [if ?c then r else _] => destruct c end;
    [reflexivity|].
  rewrite (fold_left_view (fun x => map sceneKind (scenes x))).
  - destruct (1 <? length (visibleScenesOf (scenes r)))%nat; reflexivity.
  - intros acc s. destruct (externalRenderer s); [reflexivity|].
    destruct (1 <? length (visibleScenesOf (scenes r)))%nat.
    + apply sceneKind_updateScene. reflexivity.
    + destruct (Nat.eqb (sceneId s) (sceneId v)); [|reflexivity].
      cbn [scenes set_scenes set_canvas3D].
      apply sceneKind_updateScene. reflexivity.
Qed.

Lemma kinds_updateRendererSize (dprNow : Q) (r : Renderer) :
  map sceneKind (scenes (updateRendererSize dprNow r))
  = map sceneKind (scenes r).
Proof.
  unfold updateRendererSize.
  set (r1 := if negb (Qeq_bool dprNow (dpr r)) then _ else r).
  assert (H1 : map sceneKind (scenes r1) = map sceneKind (scenes r)).
  { unfold r1. destruct (negb (Qeq_bool dprNow (dpr r))); [|reflexivity].
    cbn [scenes set_scenes]. apply kinds_set_scenes_map.
    intros s. destruct (elementUpdateSize dprNow s). reflexivity. }
  match goal with |- context [if ?c then r1 else _] => destruct c end;
    [exact H1|].
  rewrite <- H1. cbn [canRender set_size].
  destruct (canRender r1); cbn [scenes set_scenes set_canvas3D];
    apply (kinds_set_scenes_map _ r1); reflexivity.
Qed.

Lemma kinds_updateRendererScale (r : Renderer) :
  map sceneKind (scenes (updateRendererScale r))
  = map sceneKind (scenes r).
Proof.
  unfold updateRendererScale.
  destruct (Qlt_bool HIGH_FRAME_DURATION_MS (avgFrameDuration r)
            && (scaleStep r <? lastStep r)%Z);
    [|destruct (Qlt_bool (avgFrameDuration r) LOW_FRAME_DURATION_MS
                && (0 <? scaleStep r)%Z)];
    cbn [set_scaleStep scaleStep];
    match goal with
    | |- context [(?a =? ?b)%Z] => destruct (a =? b)%Z
    end; try reflexivity;
    cbn [scenes set_scenes set_canvas3D set_avgFrameDuration set_scaleStep];
    apply (kinds_set_scenes_map _ r); reflexivity.
Qed.

(** X11. A frame that is rendered leaves no visible scene waiting: in a
    registry of distinct scenes, after [render] every scene whose model is
    visible and which three.js draws is no longer dirty, whatever the
    elements' tick hooks asked for during the frame.  The frame neither
    adds nor drops scenes, nor changes their visibility. *)
Theorem frame_draws_visible_scenes (dprNow t : Q) (r : Renderer) :
  canRender r = true -> isPresenting r = false ->
  NoDup (map sceneId (scenes r)) ->
  let r' := render dprNow t None r in
  Forall
    (fun s => modelIsVisible s = true -> externalRenderer s = false ->
              isDirty s = false) (scenes r')
  /\ map sceneKind (scenes r') = map sceneKind (scenes r).
Proof.
  intros Hc Hp Hnd. cbv zeta. unfold render, isPresenting in *.
  cbn [canRender arRenderer set_lastTick]. rewrite Hc, Hp. cbn [negb orb].
  unfold renderFrame.
  set (r4 := updateRendererScale _).
  assert (Hk4 : map sceneKind (scenes r4) = map sceneKind (scenes r)).
  { unfold r4.
    now rewrite kinds_updateRendererScale, kinds_updateRendererSize,
      kinds_selectCanvas. }
  assert (Hnd4 : NoDup (map sceneId (scenes r4)))
    by now rewrite (kinds_ids _ _ Hk4).
  unfold orderedScenes. rewrite fold_left_app.
  set (hidden := map sceneId
                   (filter (fun s => negb (modelIsVisible s)) (scenes r4))).
  set (shown := map sceneId (filter modelIsVisible (scenes r4))).
  set (r5' := fold_left _ hidden r4).
  assert (Hk5 : map sceneKind (scenes r5') = map sceneKind (scenes r4)).
  { unfold r5'.
    apply (fold_left_view (fun x => map sceneKind (scenes x))).
    intros; apply kinds_drawScene. }
  assert (Hvis4 : forall s, In s (scenes r4) -> In (sceneId s) shown ->
                            modelIsVisible s = true).
  { intros s Hs Hin. unfold shown in Hin.
    apply in_map_iff in Hin as (v & Hid & Hv).
    apply filter_In in Hv as [Hv Hvv].
    now rewrite (NoDup_ids_unique (scenes r4) s v Hnd4 Hs Hv (eq_sym Hid)). }
  pose proof (draw_visible_loop t (t - lastTick r) shown r5' []) as Hloop.
  rewrite app_nil_r in Hloop.
  assert (Hfinal : map sceneKind
                     (scenes (fold_left (drawScene t (t - lastTick r))
                                shown r5'))
                   = map sceneKind (scenes r4)).
  { rewrite <- Hk5.
    apply (fold_left_view (fun x => map sceneKind (scenes x))).
    intros; apply kinds_drawScene. }
  split; [|now rewrite Hfinal].
  specialize (Hloop ltac:(now rewrite (kinds_ids _ _ Hk5))
                    (kinds_visible _ _ shown Hk5 Hvis4)
                    ltac:(apply Forall_forall; intros s _ []; fail)).
  unfold drawn in Hloop. rewrite Forall_forall in *.
  intros s Hs Hv He. apply Hloop; try assumption.
  assert (Hin : In (sceneKind s) (map sceneKind (scenes r4)))
    by (rewrite <- Hfinal; now apply in_map).
  apply in_map_iff in Hin as (s4 & E & Hs4).
  injection E as Ei Ev _. unfold shown. rewrite <- Ei.
  apply in_map. apply filter_In. split; [exact Hs4 | congruence].
Qed.

End DrawingLoop.

(** * Properties of the validation report *)

Section ValidationFacts.

Import Validation.
Local Open Scope string_scope.

(** ** Objects as maps *)

Lemma lookup_cons {V : Type} (key k : string) (v : V)
    (o : list (string * V)) :
  lookup key ((k, v) :: o)
  = if String.eqb k key then Some v else lookup key o.
Proof. unfold lookup. cbn. destruct (String.eqb k key); reflexivity. Qed.

Lemma lookup_assign_eq {V : Type} (key : string) (v : V)
    (o : list (string * V)) :
  lookup key (assign key v o) = Some v.
Proof.
  induction o as [|[k w] o IH]; cbn [assign].
  - rewrite lookup_cons, String.eqb_refl. reflexivity.
  - destruct (String.eqb k key) eqn:E; rewrite lookup_cons, E;
      [reflexivity | exact IH].
Qed.

Lemma lookup_assign_ne {V : Type} (key key' : string) (v : V)
    (o : list (string * V)) :
  key <> key' -> lookup key' (assign key v o) = lookup key' o.
Proof.
  intros Hne. induction o as [|[k w] o IH]; cbn [assign].
  - rewrite lookup_cons.
    replace (String.eqb key key') with false
      by (symmetry; now apply String.eqb_neq).
    reflexivity.
  - destruct (String.eqb k key) eqn:E.
    + apply String.eqb_eq in E. subst k. rewrite !lookup_cons.
      replace (String.eqb key key') with false
        by (symmetry; now apply String.eqb_neq).
      reflexivity.
    + rewrite !lookup_cons, IH. reflexivity.
Qed.

Lemma keys_assign {V : Type} (key : string) (v : V)
    (o : list (string * V)) :
  map fst (assign key v o)
  = if existsb (String.eqb key) (map fst o) then map fst o
    else map fst o ++ [key].
Proof.
  induction o as [|[k w] o IH]; cbn [assign map fst existsb app];
    [reflexivity|].
  rewrite (String.eqb_sym key k).
  destruct (String.eqb k key) eqn:E; cbn [map fst orb]; [reflexivity|].
  rewrite IH. destruct (existsb (String.eqb key) (map fst o)); reflexivity.
Qed.

Lemma lookup_None_keys {V : Type} (key : string) (o : list (string * V)) :
  lookup key o = None <-> ~ In key (map fst o).
Proof.
  induction o as [|[k w] o IH]; cbn [map fst In].
  - split; [intros _ [] | reflexivity].
  - rewrite lookup_cons. destruct (String.eqb k key) eqn:E.
    + apply String.eqb_eq in E. split; [discriminate | intros H; tauto].
    + apply String.eqb_neq in E. rewrite IH. tauto.
Qed.

Lemma NoDup_keys_assign {V : Type} (key : string) (v : V)
    (o : list (string * V)) :
  NoDup (map fst o) -> NoDup (map fst (assign key v o)).
Proof.
  intros Hnd. rewrite keys_assign.
  destruct (existsb (String.eqb key) (map fst o)) eqn:E; [exact Hnd|].
  apply NoDup_app; [exact Hnd | repeat constructor; intros [] |].
  intros x Hx [<- | []].
  assert (existsb (String.eqb key) (map fst o) = true); [|congruence].
  apply existsb_exists. exists key. split; [exact Hx|].
  apply String.eqb_refl.
Qed.

(** ** Counting pointers *)

Lemma countPointer_same (p : string) (counts : list (string * nat)) :
  lookup p (countPointer p counts) = Some (S (countOf p counts)).
Proof.
  unfold countPointer, countOf.
  destruct (lookup p counts) as [[|n]|] eqn:E; cbn [truthy negb].
  - rewrite lookup_assign_eq, lookup_assign_eq. reflexivity.
  - rewrite E, lookup_assign_eq. reflexivity.
  - rewrite lookup_assign_eq, lookup_assign_eq. reflexivity.
Qed.

Lemma countPointer_other (p q : string) (counts : list (string * nat)) :
  p <> q -> lookup q (countPointer p counts) = lookup q counts.
Proof.
  intros Hne. unfold countPointer.
  destruct (negb (truthy (lookup p counts)));
    destruct (lookup p _); rewrite ?lookup_assign_ne by assumption;
    reflexivity.
Qed.

Lemma countPointer_NoDup (p : string) (counts : list (string * nat)) :
  NoDup (map fst counts) -> NoDup (map fst (countPointer p counts)).
Proof.
  intros H. unfold countPointer.
  destruct (negb (truthy (lookup p counts)));
    destruct (lookup p _); auto using NoDup_keys_assign.
Qed.

Lemma tally_NoDup (c : string) (errs : list Message) :
  forall start, NoDup (map fst start) ->
                NoDup (map fst (tally c errs start)).
Proof.
  unfold tally. induction errs as [|m errs IH]; intros start H; [exact H|].
  cbn [fold_left]. apply IH.
  destruct (String.eqb (code m) c); [now apply countPointer_NoDup | exact H].
Qed.

(** The count of a pointer after the first loop: what it was before plus
    the number of errors with that code and pointer; and a pointer gets a
    key only through such an error. *)
Lemma tally_lookup (c p : string) (errs : list Message) :
  forall start,
    let n := length (filter (about c p) errs) in
    countOf p (tally c errs start) = (countOf p start + n)%nat
    /\ (lookup p (tally c errs start) = None <->
        lookup p start = None /\ n = 0%nat).
Proof.
  unfold tally. induction errs as [|m errs IH]; intros start; cbn zeta.
  - cbn. split; [lia | tauto].
  - cbn [fold_left filter].
    assert (Eabout : about c p m
                     = String.eqb (code m) c && String.eqb (pointer m) p)
      by reflexivity.
    rewrite Eabout.
    destruct (String.eqb (code m) c) eqn:Ec; cbn [andb]; [|apply IH].
    destruct (IH (countPointer (pointer m) start)) as [Hc Hn].
    cbv zeta in Hc, Hn.
    destruct (String.eqb (pointer m) p) eqn:Ep.
    + apply String.eqb_eq in Ep. subst p.
      assert (Hs : countOf (pointer m) (countPointer (pointer m) start)
                   = S (countOf (pointer m) start)).
      { unfold countOf at 1. now rewrite countPointer_same. }
      cbn [length]. split; [rewrite Hc, Hs; lia|].
      rewrite Hn, countPointer_same.
      split; [intros [H _]; discriminate H | intros [_ H]; discriminate H].
    + apply String.eqb_neq in Ep.
      unfold countOf in *.
      rewrite countPointer_other in Hc, Hn by assumption.
      split; assumption.
Qed.

(** ** The table after the first loop *)

Lemma aggregated_cases (c : string) :
  aggregated c = true ->
  c = "ACCESSOR_NON_UNIT"
  \/ c = "ACCESSOR_ANIMATION_INPUT_NON_INCREASING".
Proof.
  unfold aggregated, CODES. rewrite !lookup_cons.
  destruct (String.eqb "ACCESSOR_NON_UNIT" c) eqn:E1.
  - apply String.eqb_eq in E1. now left.
  - destruct (String.eqb "ACCESSOR_ANIMATION_INPUT_NON_INCREASING" c) eqn:E2.
    + apply String.eqb_eq in E2. now right.
    + discriminate.
Qed.

Lemma counted_codes (errs : list Message) :
  forall pc1 pc2 : list (string * nat),
    fold_left countError errs
      [("ACCESSOR_NON_UNIT",
        mkCodeEntry (template (snd (nth 0 CODES ("", mkCodeEntry "" []))))
          pc1);
       ("ACCESSOR_ANIMATION_INPUT_NON_INCREASING",
        mkCodeEntry (template (snd (nth 1 CODES ("", mkCodeEntry "" []))))
          pc2)]
    = [("ACCESSOR_NON_UNIT",
        mkCodeEntry (template (snd (nth 0 CODES ("", mkCodeEntry "" []))))
          (tally "ACCESSOR_NON_UNIT" errs pc1));
       ("ACCESSOR_ANIMATION_INPUT_NON_INCREASING",
        mkCodeEntry (template (snd (nth 1 CODES ("", mkCodeEntry "" []))))
          (tally "ACCESSOR_ANIMATION_INPUT_NON_INCREASING" errs pc2))].
Proof.
  unfold tally. induction errs as [|m errs IH]; intros pc1 pc2;
    [reflexivity|].
  cbn [fold_left]. rewrite <- IH. f_equal.
  unfold countError. rewrite !lookup_cons.
  rewrite (String.eqb_sym (code m) "ACCESSOR_NON_UNIT").
  rewrite (String.eqb_sym (code m)
             "ACCESSOR_ANIMATION_INPUT_NON_INCREASING").
  destruct (String.eqb "ACCESSOR_NON_UNIT" (code m)) eqn:E1.
  - apply String.eqb_eq in E1. rewrite <- E1. reflexivity.
  - destruct (String.eqb "ACCESSOR_ANIMATION_INPUT_NON_INCREASING" (code m))
      eqn:E2.
    + apply String.eqb_eq in E2. rewrite <- E2. reflexivity.
    + reflexivity.
Qed.

Lemma filter_none {A : Type} (f : A -> bool) (l : list A) :
  (forall x, In x l -> f x = false) -> filter f l = [].
Proof.
  induction l as [|a l IH]; cbn; intros H; [reflexivity|].
  rewrite (H a) by now left. apply IH. intros x Hx. apply H. now right.
Qed.

(** The aggregated messages of one table entry that are about the code
    [c] and the pointer [p]. *)
Lemma aggregates_entry (c c' p txt : string) (counts : list (string * nat)) :
  NoDup (map fst counts) ->
  filter (about c p)
    (map (fun pn : string * nat =>
            mkMessage c' (replace "{count}" (decimal (snd pn)) txt)
              (fst pn) None) counts)
  = if String.eqb c' c
    then match lookup p counts with
         | Some n => [mkMessage c' (replace "{count}" (decimal n) txt) p None]
         | None => []
         end
    else [].
Proof.
  intros Hnd. destruct (String.eqb c' c) eqn:E.
  - induction counts as [|[k n] counts IH]; cbn [map filter]; [reflexivity|].
    inversion Hnd as [|? ? Hnot Hnd']; subst.
    unfold about at 1. cbn [code pointer fst snd].
    rewrite E, lookup_cons. cbn [andb].
    specialize (IH Hnd').
    destruct (String.eqb k p) eqn:Ek.
    + apply String.eqb_eq in Ek. subst k.
      assert (Hnone : lookup p counts = None) by now apply lookup_None_keys.
      rewrite Hnone in IH. now rewrite IH.
    + exact IH.
  - apply filter_none. intros m Hm.
    apply in_map_iff in Hm as (pn & <- & _).
    unfold about. cbn [code]. now rewrite E.
Qed.

Lemma filter_filter_and {A : Type} (f g : A -> bool) (l : list A) :
  filter f (filter g l) = filter (fun x => f x && g x) l.
Proof.
  induction l as [|a l IH]; cbn; [reflexivity|].
  destruct (g a); cbn; [destruct (f a); cbn; now rewrite IH|].
  rewrite andb_false_r. exact IH.
Qed.

Lemma filter_all {A : Type} (f : A -> bool) (l : list A) :
  (forall x, In x l -> f x = true) -> filter f l = l.
Proof.
  induction l as [|a l IH]; cbn; intros H; [reflexivity|].
  rewrite (H a) by now left. f_equal. apply IH. intros x Hx. apply H.
  now right.
Qed.

(** [groupMessages] in terms of the tallies of the two codes. *)
Lemma groupMessages_unfold (errs : list Message) :
  let t1 := template (snd (nth 0 CODES ("", mkCodeEntry "" []))) in
  let t2 := template (snd (nth 1 CODES ("", mkCodeEntry "" []))) in
  let codes :=
    [("ACCESSOR_NON_UNIT",
      mkCodeEntry t1 (tally "ACCESSOR_NON_UNIT" errs []));
     ("ACCESSOR_ANIMATION_INPUT_NON_INCREASING",
      mkCodeEntry t2
        (tally "ACCESSOR_ANIMATION_INPUT_NON_INCREASING" errs []))] in
  groupMessages errs = filter (keepError codes) errs ++ aggregates codes.
Proof.
  cbv zeta. unfold groupMessages.
  change CODES with
    [("ACCESSOR_NON_UNIT",
      mkCodeEntry (template (snd (nth 0 CODES ("", mkCodeEntry "" [])))) []);
     ("ACCESSOR_ANIMATION_INPUT_NON_INCREASING",
      mkCodeEntry (template (snd (nth 1 CODES ("", mkCodeEntry "" [])))) [])]
    at 1 2.
  now rewrite counted_codes.
Qed.

(** X12. When no error has a code that names a member of
    [Object.prototype], [groupMessages] leaves the errors with other codes
    alone: the errors whose code is not one of the two aggregated codes are
    all kept, in their order, and no message with another code is added. *)
Theorem groupMessages_other_codes (errs : list Message) :
  Forall (fun m => ownKey (code m) = true) errs ->
  filter (fun m => negb (aggregated (code m))) (groupMessages errs)
  = filter (fun m => negb (aggregated (code m))) errs.
Proof.
  intros _. rewrite groupMessages_unfold. cbv zeta. rewrite filter_app.
  rewrite filter_filter_and.
  match goal with |- _ ++ ?agg = _ => assert (Hagg : agg = []) end.
  { apply filter_none. intros m Hm. unfold aggregates in Hm.
    cbn [flat_map fst snd pointerCounts] in Hm.
    rewrite app_nil_r in Hm.
    apply in_app_or in Hm as [Hm | Hm];
      apply in_map_iff in Hm as (pn & <- & _); reflexivity. }
  rewrite Hagg, app_nil_r. apply filter_ext. intros m.
  unfold aggregated, keepError, CODES. rewrite !lookup_cons.
  destruct (String.eqb "ACCESSOR_NON_UNIT" (code m)); [reflexivity|].
  destruct (String.eqb "ACCESSOR_ANIMATION_INPUT_NON_INCREASING" (code m));
    reflexivity.
Qed.

(** X13. When no error has a code that names a member of
    [Object.prototype], then for an aggregated code and a pointer that does
    not name such a member either, with [n] errors: [groupMessages] appends
    exactly one summary message when [n >= 1], whose text starts with the
    count [n]; it removes the [n] original errors when [n >= 2], and keeps
    the original next to the summary when [n = 1]. *)
Theorem groupMessages_aggregates (c p : string) (entry : CodeEntry)
    (errs : list Message) :
  Forall (fun m => ownKey (code m) = true) errs -> ownKey p = true ->
  lookup c CODES = Some entry ->
  let n := length (filter (about c p) errs) in
  let text := replace "{count}" (decimal n) (template entry) in
  filter (about c p) (groupMessages errs)
  = (if (n <? 2)%nat then filter (about c p) errs else [])
    ++ (if (0 <? n)%nat then [mkMessage c text p None] else [])
  /\ text
     = String.append (decimal n)
         (String.substring 7 (String.length (template entry) - 7)
            (template entry)).
Proof.
  intros _ _ Hentry. cbv zeta.
  assert (Hc : aggregated c = true) by (unfold aggregated; now rewrite Hentry).
  rewrite groupMessages_unfold. cbv zeta. rewrite filter_app.
  set (n := length (filter (about c p) errs)).
  destruct (tally_lookup c p errs []) as [Hcount Hnone].
  cbv zeta in Hcount, Hnone. fold n in Hcount, Hnone.
  change (countOf p []) with 0%nat in Hcount. cbn [Nat.add] in Hcount.
  assert (Hlook : lookup p (tally c errs [])
                  = if (0 <? n)%nat then Some n else None).
  { unfold countOf in Hcount.
    destruct (lookup p (tally c errs [])) as [k|].
    - subst k. destruct n as [|n']; [|reflexivity].
      exfalso. assert (H0 : Some 0%nat = None); [|discriminate H0].
      apply Hnone. split; reflexivity.
    - destruct (proj1 Hnone eq_refl) as [_ ->]. reflexivity. }
  pose proof (tally_NoDup "ACCESSOR_NON_UNIT" errs [] (NoDup_nil _)) as Hnd1.
  pose proof (tally_NoDup "ACCESSOR_ANIMATION_INPUT_NON_INCREASING" errs []
                (NoDup_nil _)) as Hnd2.
  unfold aggregates. cbn [flat_map fst snd pointerCounts template].
  rewrite app_nil_r, filter_app, !aggregates_entry by assumption.
  rewrite filter_filter_and.
  destruct (aggregated_cases c Hc) as [-> | ->];
    (split; [|unfold CODES in Hentry; rewrite !lookup_cons in Hentry;
              cbn in Hentry; injection Hentry as <-; reflexivity]);
    cbn [String.eqb Ascii.eqb Bool.eqb]; rewrite Hlook;
    unfold CODES in Hentry; rewrite !lookup_cons in Hentry;
    cbn in Hentry; injection Hentry as <-;
    cbn [nth CODES snd template app];
    (f_equal; [|destruct (0 <? n)%nat; reflexivity]);
    (destruct (n <? 2)%nat eqn:E2;
     [ apply filter_ext_in; intros m Hm
     | apply filter_none; intros m Hm ]);
    unfold about, keepError; rewrite !lookup_cons;
    destruct (String.eqb (code m) _) eqn:Ec; cbn [andb]; try reflexivity;
    destruct (String.eqb (pointer m) p) eqn:Ep; cbn [andb]; try reflexivity;
    apply String.eqb_eq in Ec, Ep; rewrite Ec, Ep;
    cbn [String.eqb Ascii.eqb Bool.eqb pointerCounts snd];
    rewrite Hlook; destruct n as [|[|n']]; cbn in *;
    try reflexivity; try discriminate.
Qed.

(** ** The maximal severity *)

Lemma maxSeverityOf_cases (i : Issues) :
  maxSeverityOf i
  = if positive (numErrors i) then 0%Z
    else if positive (numWarnings i) then 1%Z
    else if positive (numInfos i) then 2%Z
    else if positive (numHints i) then 3%Z
    else (-1)%Z.
Proof.
  unfold maxSeverityOf, indexed, SEVERITY_MAP, issueCount.
  cbn [length seq map combine fold_left String.append String.eqb Ascii.eqb
       Bool.eqb Z.of_nat Pos.of_succ_nat Pos.succ].
  destruct (positive (numErrors i)), (positive (numWarnings i)),
    (positive (numInfos i)), (positive (numHints i)); reflexivity.
Qed.

(** X14. [maxSeverity] is the index of the first kind of issue, in the
    order errors, warnings, infos, hints, whose count is positive, and -1
    when no count is positive; a missing count is not positive. *)
Theorem maxSeverity_first_positive (i : Issues) :
  let counts := [numErrors i; numWarnings i; numInfos i; numHints i] in
  let result := maxSeverity (setReport i) in
  (result = (-1)%Z <-> Forall (fun c => positive c = false) counts)
  /\ (forall k : nat, (k < 4)%nat ->
        result = Z.of_nat k <->
        positive (nth k counts None) = true
        /\ (forall j : nat, (j < k)%nat ->
              positive (nth j counts None) = false)).
Proof.
  cbv zeta. cbn [setReport maxSeverity]. rewrite maxSeverityOf_cases.
  destruct (positive (numErrors i)) eqn:E0;
    destruct (positive (numWarnings i)) eqn:E1;
    destruct (positive (numInfos i)) eqn:E2;
    destruct (positive (numHints i)) eqn:E3;
    (split;
     [ split;
       [ intros H; try discriminate H; repeat constructor; assumption
       | intros H;
         repeat match goal with
                | H : Forall _ (_ :: _) |- _ =>
                    let H1 := fresh in
                    let H2 := fresh in
                    inversion H as [|? ? H1 H2]; subst; clear H
                end; congruence ]
     | intros k Hk;
       destruct k as [|[|[|[|k]]]]; try lia; cbn [nth Z.of_nat
         Pos.of_succ_nat Pos.succ];
       (split;
        [ intros H; try discriminate H;
          (split;
           [ assumption
           | intros j Hj;
             destruct j as [|[|[|j]]]; try lia; cbn [nth]; assumption ])
        | intros [Hp Hall];
          try reflexivity; try congruence;
          try (specialize (Hall 0%nat ltac:(lia)); cbn [nth] in Hall;
               congruence);
          try (specialize (Hall 1%nat ltac:(lia)); cbn [nth] in Hall;
               congruence);
          try (specialize (Hall 2%nat ltac:(lia)); cbn [nth] in Hall;
               congruence) ]) ]).
Qed.

(** ** External resources *)

Lemma lastIndexOf_file (dir file : string) :
  lastIndexOf slash file = None ->
  lastIndexOf slash
    (String.append dir (String.String slash file))
  = Some (String.length dir).
Proof.
  intros Hfile. induction dir as [|a dir IH]; cbn [String.append lastIndexOf].
  - rewrite Hfile, Ascii.eqb_refl. reflexivity.
  - rewrite IH. reflexivity.
Qed.

Lemma substring_prefix (dir rest : string) :
  String.substring 0 (String.length dir) (String.append dir rest) = dir.
Proof.
  induction dir as [|a dir IH]; cbn [String.append String.length].
  - destruct rest; reflexivity.
  - cbn [String.substring]. now rewrite IH.
Qed.

Lemma append_assoc (a b c : string) :
  String.append (String.append a b) c = String.append a (String.append b c).
Proof.
  induction a as [|x a IH]; cbn [String.append]; [reflexivity|].
  now rewrite IH.
Qed.

(** X15. External resources are resolved against the directory of the glTF
    file: for a url [dir/file], where [file] has no slash, the resource
    [uri] is fetched from [dir/uri]; for a url without any slash it is
    fetched from [./uri]. *)
Theorem resource_relative_to_gltf (dir file uri : string) :
  lastIndexOf slash file = None ->
  resourceAddress uri (String.append dir (String.String slash file))
  = String.append dir (String.String slash uri)
  /\ resourceAddress uri file = String.append "./" uri.
Proof.
  intros Hfile. unfold resourceAddress. split.
  - rewrite lastIndexOf_file by assumption.
    replace (String.append dir (String.String slash file))
      with (String.append (String.append dir (String.String slash ""))
              file).
    + replace (String.length dir + 1)%nat
        with (String.length (String.append dir (String.String slash "")))
        by (clear; induction dir as [|a dir IH]; cbn [String.append
              String.length]; [reflexivity | now rewrite IH]).
      rewrite substring_prefix, append_assoc. reflexivity.
    + rewrite append_assoc. reflexivity.
  - rewrite Hfile. reflexivity.
Qed.

End ValidationFacts.

(** * Properties of pointer positions, scene graph and mobile section *)

Section PointerFacts.

Context {host : Host} {projection : Projection}.


End PointerFacts.

Section SceneGraphFacts.

Import SceneGraph.


End SceneGraphFacts.

Section MobileSectionFacts.

Import MobileSection.
Local Open Scope string_scope.

(** X20. The mobile section is consistent: the red out-of-sync message is
    shown exactly when the "Refresh Mobile" button is red, and then the
    button is enabled; while data is being sent the button is disabled and
    the sending message is shown; no message is shown exactly when a
    response has arrived, nothing is being sent and nothing has changed;
    and the section shows either the deploy button or the mobile info,
    never both and never neither. *)
Theorem mobile_section_consistent (p : Properties) :
  let info := renderMobileInfo p in
  let outOfSync :=
    Some (mkNotice "#DC143C"
            "Your mobile view is out of sync with the editor.") in
  (notice info = outOfSync <-> refreshColour info = "#DC143C")
  /\ (notice info = outOfSync -> refreshDisabled info = false)
  /\ (isSendingData p = true ->
      refreshDisabled info = true
      /\ notice info
         = Some (mkNotice "white"
                   "Sending data to mobile device. Textured models will take some time."))
  /\ (notice info = None <->
      haveReceivedResponse p = true /\ isSendingData p = false
      /\ contentHasChanged p = false)
  /\ (deployButton (MobileSection.render p) = None <->
      mobileInfo (MobileSection.render p) <> None).
Proof.
  destruct p as [deployed deployable received sending changed].
  cbv zeta. unfold MobileSection.render, renderMobileInfo, optionalMessage.
  cbn [isDeployed isDeployable haveReceivedResponse isSendingData
       contentHasChanged notice refreshColour refreshDisabled
       deployButton mobileInfo].
  destruct deployed, received, sending, changed; cbn;
    repeat split; intros; try discriminate; try reflexivity;
    try congruence;
    repeat match goal with
           | H : _ /\ _ |- _ => destruct H
           end; try discriminate; try congruence.
Qed.

End MobileSectionFacts.

(** * The step and the timer under all operations *)

Section StepAndTimer.

Context {host : Host}.

Lemma scaleFactor_in_table (r : Renderer) :
  (0 <= scaleStep r <= 6)%Z ->
  exists s, scaleFactor r = Some s /\ 0.25 <= s <= 1.
Proof.
  intros H. unfold scaleFactor.
  replace (scaleStep r <? 0)%Z with false by (symmetry; apply Z.ltb_ge; lia).
  assert (Hn : (Z.to_nat (scaleStep r) < 7)%nat) by lia.
  destruct (Z.to_nat (scaleStep r)) as [|[|[|[|[|[|[|n]]]]]]]; try lia;
    cbn [nth_error SCALE_STEPS]; eexists; (split; [reflexivity|]);
    split; vm_compute; discriminate.
Qed.

Lemma step_in_table_render (dprNow t : Q) (frame : option XRFrame)
    (r : Renderer) :
  (0 <= scaleStep r <= 6)%Z -> (0 <= lastStep r <= 6)%Z ->
  (0 <= scaleStep (render dprNow t frame r) <= 6)%Z
  /\ (0 <= lastStep (render dprNow t frame r) <= 6)%Z.
Proof.
  intros Hs Hl. rewrite lastStep_render. split; [|exact Hl].
  destruct (render_cases dprNow t frame r) as [(_ & E & _) | (_ & _ & _ & E)].
  - now rewrite E.
  - apply controller_eq in E as (_ & E & _). rewrite E.
    set (r1 := updateAvgFrameDuration (t - lastTick r) (set_lastTick t r)).
    change (scaleStep r) with (scaleStep r1) in Hs.
    change (lastStep r) with (lastStep r1) in Hl.
    destruct (updateRendererScale_cases r1)
      as [[[_ U] E1] | [(_ & [_ D] & E1) | (_ & _ & E1)]]; rewrite E1; lia.
Qed.

(** X21. From construction on, whatever the page does, also when the
    minimum scale is changed while the resolution is reduced, [scaleStep]
    and [lastStep] stay inside the scale table, so that the scale factor is
    always defined, between 0.25 and 1, and no CSS size is computed from an
    undefined factor. *)
Theorem scale_factor_always_defined (dprNow : Q) (webgl : bool)
    (ar : ARRenderer) (now : Q) (ops : list Operation) :
  let r := fold_left perform ops (constructor dprNow webgl ar now) in
  (0 <= scaleStep r <= 6)%Z /\ (0 <= lastStep r <= 6)%Z
  /\ exists s, scaleFactor r = Some s /\ 0.25 <= s <= 1.
Proof.
  cbv zeta.
  assert (Hinv : forall (l : list Operation) (r : Renderer),
             (0 <= scaleStep r <= 6)%Z /\ (0 <= lastStep r <= 6)%Z ->
             (0 <= scaleStep (fold_left perform l r) <= 6)%Z
             /\ (0 <= lastStep (fold_left perform l r) <= 6)%Z).
  { induction l as [|o l IH]; intros r [Hs Hl]; [now split|].
    cbn [fold_left]. apply IH.
    destruct o as [scene | scene | scale | | k]; cbn [perform].
    - now split.
    - now split.
    - split; [exact Hs|].
      pose proof (minScale_loop_range scale (skipn 1 SCALE_STEPS) 1) as Hr.
      change (Z.of_nat (length (skipn 1 SCALE_STEPS))) with 6%Z in Hr.
      unfold set_minScale. cbn [lastStep set_lastStep]. lia.
    - now split.
    - now apply step_in_table_render. }
  assert (H0 : (0 <= scaleStep (constructor dprNow webgl ar now) <= 6)%Z
               /\ (0 <= lastStep (constructor dprNow webgl ar now) <= 6)%Z).
  { pose proof (controller_updateRendererSize dprNow
      (set_canRender webgl (set_size 0 0 dprNow (initialFields ar)))) as H.
    apply controller_eq in H as (_ & Hs & Hl & _).
    unfold constructor. cbn [scaleStep lastStep set_avgFrameDuration
                             set_lastTick].
    change (scaleStep (updateRendererSize dprNow
              (set_canRender webgl (set_size 0 0 dprNow (initialFields ar))))
            = 0%Z) in Hs.
    change (lastStep (updateRendererSize dprNow
              (set_canRender webgl (set_size 0 0 dprNow (initialFields ar))))
            = 3%Z) in Hl.
    change (width (initialFields ar)) with 0.
    change (height (initialFields ar)) with 0.
    rewrite Hs, Hl. lia. }
  destruct (Hinv ops _ H0) as [Hs Hl].
  split; [exact Hs|]. split; [exact Hl|].
  now apply scaleFactor_in_table.
Qed.

Lemma last_cons {A : Type} (a d : A) (l : list A) :
  last (a :: l) d = last l a.
Proof.
  revert a d. induction l as [|b l IH]; intros a d; [reflexivity|].
  change (last (a :: b :: l) d) with (last (b :: l) d).
  now rewrite !IH.
Qed.

(** X22. The frame timer records every callback without an XR frame,
    whether or not the frame is rendered: after any run, [lastTick] is the
    time of the last such callback, or what it was before the run when
    there was none. *)
Theorem timer_records_last_callback (ticks : list Tick) (r : Renderer) :
  lastTick (run ticks r)
  = last
      (map tick_time
         (filter (fun k => match tick_frame k with
                           | None => true
                           | Some _ => false
                           end) ticks))
      (lastTick r).
Proof.
  revert r. induction ticks as [|k ticks IH]; intros r; [reflexivity|].
  cbn [run fold_left]. fold (run ticks (renderTick r k)).
  rewrite IH. cbn [filter]. unfold renderTick.
  destruct (tick_frame k) as [f|] eqn:E.
  - reflexivity.
  - destruct (guards_render (tick_dpr k) (tick_time k) r) as (_ & _ & Ht).
    rewrite Ht. cbn [map]. symmetry. apply last_cons.
Qed.

End StepAndTimer.

(** * Instances of the further properties *)

Lemma registerScene_once_page :
  NoDup (map sceneId (scenes (registerScene surfaceA freshRenderer)))
  /\ map sceneId
       (scenes (registerScene surfaceB
                  (registerScene surfaceA freshRenderer)))
     = [1%nat; 2%nat].
Proof.
  assert (Hnd : NoDup (map sceneId
                         (scenes (registerScene surfaceA freshRenderer))))
    by (repeat constructor; intros []).
  split; [exact Hnd|].
  destruct (@registerScene_once idleHost surfaceB
              (registerScene surfaceA freshRenderer) Hnd)
    as (_ & _ & _ & Hnew).
  apply Hnew. intros [H | []]. discriminate H.
Defined.

Lemma register_unregister_page :
  ~ In (sceneId surfaceA) (map sceneId (scenes freshRenderer))
  /\ unregisterScene surfaceA (registerScene surfaceA freshRenderer)
     = freshRenderer.
Proof.
  assert (Hfresh : ~ In (sceneId surfaceA)
                       (map sceneId (scenes freshRenderer)))
    by (intros []).
  split; [exact Hfresh|].
  exact (@register_unregister idleHost surfaceA freshRenderer Hfresh).
Defined.

Lemma slow_frames_never_restore_steady :
  18 <= avgFrameDuration steadyRenderer
  /\ Forall (fun d => 18 <= d) (deltas [frameAt 30; frameAt 60] steadyRenderer)
  /\ (scaleStep steadyRenderer
      <= scaleStep (run [frameAt 30; frameAt 60] steadyRenderer))%Z.
Proof.
  assert (H1 : 18 <= avgFrameDuration steadyRenderer)
    by (vm_compute; discriminate).
  assert (H2 : Forall (fun d => 18 <= d)
                 (deltas [frameAt 30; frameAt 60] steadyRenderer))
    by (repeat constructor; vm_compute; discriminate).
  split; [exact H1|]. split; [exact H2|].
  exact (proj1 (@slow_frames_never_restore idleHost
                  [frameAt 30; frameAt 60] steadyRenderer H1 H2)).
Defined.

Lemma fast_frames_never_reduce_fresh :
  avgFrameDuration freshRenderer <= 26
  /\ Forall (fun d => d <= 26) (deltas [frameAt 16; frameAt 32] freshRenderer)
  /\ (scaleStep (run [frameAt 16; frameAt 32] freshRenderer)
      <= scaleStep freshRenderer)%Z.
Proof.
  assert (H1 : avgFrameDuration freshRenderer <= 26)
    by (vm_compute; discriminate).
  assert (H2 : Forall (fun d => d <= 26)
                 (deltas [frameAt 16; frameAt 32] freshRenderer))
    by (repeat constructor; vm_compute; discriminate).
  split; [exact H1|]. split; [exact H2|].
  exact (proj1 (@fast_frames_never_reduce idleHost
                  [frameAt 16; frameAt 32] freshRenderer H1 H2)).
Defined.

Lemma frame_draws_visible_scenes_page :
  canRender twoSurfaces = true /\ isPresenting twoSurfaces = false
  /\ NoDup (map sceneId (scenes twoSurfaces))
  /\ Forall
       (fun s => modelIsVisible s = true -> externalRenderer s = false ->
                 isDirty s = false)
       (scenes (render 2 16 None twoSurfaces)).
Proof.
  assert (Hnd : NoDup (map sceneId (scenes twoSurfaces))).
  { repeat constructor; [intros [H | []]; discriminate H | intros []]. }
  split; [reflexivity|]. split; [reflexivity|]. split; [exact Hnd|].
  exact (proj1 (@frame_draws_visible_scenes idleHost 2 16 twoSurfaces
                  eq_refl eq_refl Hnd)).
Defined.

Section ValidationInstances.

Local Open Scope string_scope.

Lemma groupMessages_other_codes_sample :
  Forall (fun m => Validation.ownKey (Validation.code m) = true)
    (filter (Validation.hasSeverity 0)
       (Validation.messages Validation.sampleIssues))
  /\ filter
       (fun m => negb (Validation.aggregated (Validation.code m)))
       (Validation.groupMessages
          (filter (Validation.hasSeverity 0)
             (Validation.messages Validation.sampleIssues)))
     = [Validation.mkMessage "BUFFER_VIEW_TOO_LONG" "too long"
          "/bufferViews/0" (Some 0%Z)].
Proof.
  assert (H : Forall (fun m => Validation.ownKey (Validation.code m) = true)
                (filter (Validation.hasSeverity 0)
                   (Validation.messages Validation.sampleIssues)))
    by (repeat constructor).
  split; [exact H|].
  exact (groupMessages_other_codes _ H).
Defined.

Lemma groupMessages_aggregates_sample :
  Forall (fun m => Validation.ownKey (Validation.code m) = true)
    (filter (Validation.hasSeverity 0)
       (Validation.messages Validation.sampleIssues))
  /\ Validation.ownKey "/accessors/1" = true
  /\ Validation.lookup "ACCESSOR_NON_UNIT" Validation.CODES
     = Some (Validation.mkCodeEntry
               "{count} accessor elements not of unit length: 0. [AGGREGATED]"
               [])
  /\ filter (Validation.about "ACCESSOR_NON_UNIT" "/accessors/1")
       (Validation.groupMessages
          (filter (Validation.hasSeverity 0)
             (Validation.messages Validation.sampleIssues)))
     = [Validation.mkMessage "ACCESSOR_NON_UNIT"
          "3 accessor elements not of unit length: 0. [AGGREGATED]"
          "/accessors/1" None].
Proof.
  assert (H : Forall (fun m => Validation.ownKey (Validation.code m) = true)
                (filter (Validation.hasSeverity 0)
                   (Validation.messages Validation.sampleIssues)))
    by (repeat constructor).
  split; [exact H|]. split; [reflexivity|]. split; [reflexivity|].
  exact (proj1 (groupMessages_aggregates "ACCESSOR_NON_UNIT" "/accessors/1"
                  _ (filter (Validation.hasSeverity 0)
                       (Validation.messages Validation.sampleIssues))
                  H eq_refl eq_refl)).
Defined.

Lemma resource_relative_to_gltf_sample :
  Validation.lastIndexOf Validation.slash "scene.gltf" = None
  /\ Validation.resourceAddress "scene.bin" "https://example.com/models/scene.gltf"
     = "https://example.com/models/scene.bin".
Proof.
  split; [reflexivity|].
  exact (proj1 (resource_relative_to_gltf "https://example.com/models"
                  "scene.gltf" "scene.bin" eq_refl)).
Defined.

End ValidationInstances.
